(** * memoize: the wrapper facade and the refresh coordinator

    A shallow embedding of [memoize/wrapper.py].  Coroutines are values of a
    resumption monad over an explicit world: a coroutine runs without
    interruption up to its next [await], where it hands an awaitable and a
    continuation back to the event loop.  Everything the wrapper touches
    (storage, eviction strategy, update-status tracker, the loop's
    [call_soon] queue, the logger) lives in the world.

    What the model takes for granted.  Storage and eviction strategy are
    arbitrary: any state, any answer, any exception.  Key extractor, entry
    builder and post-processing are total functions.  The user callable
    either raises when called or starts work whose outcome (a value, a
    time-out of [wait_for], any exception, a cancellation) the loop delivers
    later.  [asyncio.CancelledError] is a [BaseException] (Python 3.8 and
    later).  Wall-clock time is a counter the loop advances; the
    [update_lock_timeout] of a latch is not modelled. *)

From stdpp Require Import base numbers gmap strings pretty list.

Open Scope string_scope.
Open Scope list_scope.

(** ** Python values, entries, exceptions *)

(** Arguments and cached values are opaque to the wrapper; a small universe of
    Python values is enough to call it. *)
Inductive PyVal :=
| PyNone
| PyBool (b : bool)
| PyInt (z : Z)
| PyStr (s : string).

(** Python truthiness, as used by [elif force_refresh:]. *)
Definition truthy (v : PyVal) : bool :=
  match v with
  | PyNone => false
  | PyBool b => b
  | PyInt z => negb (z =? 0)%Z
  | PyStr s => negb (String.eqb s "")
  end.

Abbreviation CacheKey := string (only parsing).
Abbreviation Instant := Z (only parsing).
Abbreviation Kwargs := (list (string * PyVal)) (only parsing).

(** [memoize.entry.CacheEntry(created, update_after, expires_after, value)]. *)
Record CacheEntry := {
  created : Instant;
  update_after : Instant;
  expires_after : Instant;
  value : PyVal;
}.

(** Instances of Python's [Exception] that the wrapper meets or raises.
    [raise X from e] is recorded as the [cause] of [X]. *)
Inductive Exception :=
| TimeoutError
| RuntimeError (msg : string)
| ValueError (msg : string)
| OtherException (name : string)
| CachedMethodFailedException (msg : string) (cause : Exception)
| NotConfiguredCacheCalledException.

(** What can travel up the stack: an [Exception], or [asyncio.CancelledError],
    which derives from [BaseException] only and so passes through
    [except Exception]. *)
Inductive BaseException :=
| Exc (e : Exception)
| CancelledError.

Inductive Outcome (X : Type) :=
| Returned (x : X)
| Raised (e : BaseException).
Arguments Returned {X} x.
Arguments Raised {X} e.

Inductive LogLevel := DEBUG | ERROR.

(** [kwargs.pop(name, default)] on a dict kept in insertion order. *)
Fixpoint dict_pop (name : string) (default : PyVal) (kwargs : Kwargs)
  : PyVal * Kwargs :=
  match kwargs with
  | [] => (default, [])
  | (n, v) :: rest =>
      if String.eqb n name then (v, rest)
      else let '(r, rest') := dict_pop name default rest in (r, (n, v) :: rest')
  end.

(** The decorated callable.  Calling it either raises on the spot or hands
    back the awaitable of the pending user work ([None]). *)
Record Method := {
  method_name : string;
  method_call : list PyVal -> Kwargs -> option BaseException;
}.

(** The future returned by [value_future_provider]: the user work, wrapped in
    [asyncio.wait_for] with the configured timeout. *)
Record ValueFuture := {
  work_id : nat;
  wait_for_timeout : Z;
}.

Section Model.

Context {SS ES : Type}.

(** ** Collaborators

    Storage and eviction strategy are interfaces; [SS] and [ES] are the states
    of whatever implementation is plugged in.  Every call may raise. *)

Record CacheStorage := {
  get : CacheKey -> SS -> Outcome (option CacheEntry) * SS;
  offer : CacheKey -> CacheEntry -> SS -> Outcome unit * SS;
  release : CacheKey -> SS -> Outcome unit * SS;
}.

Record EvictionStrategy := {
  mark_read : CacheKey -> ES -> Outcome unit * ES;
  mark_written : CacheKey -> CacheEntry -> ES -> Outcome unit * ES;
  mark_released : CacheKey -> ES -> Outcome unit * ES;
  next_to_release : ES -> Outcome (option CacheKey) * ES;
}.

Record KeyExtractor := {
  format_key : Method -> list PyVal -> Kwargs -> CacheKey;
}.

(** [build(key, value)] stamps the entry from the clock it reads. *)
Record EntryBuilder := {
  build : CacheKey -> PyVal -> Instant -> CacheEntry;
}.

Record Postprocessing := {
  apply : PyVal -> PyVal;
}.

Record CacheConfiguration := {
  configured : bool;
  method_timeout : Z;
  entry_builder : EntryBuilder;
  key_extractor : KeyExtractor;
  storage : CacheStorage;
  eviction_strategy : EvictionStrategy;
  postprocessing : Postprocessing;
}.

(** ** The world *)

(** Coroutines handed to [call_soon(ensure_future, ...)].  The closure
    [value_future_provider] is kept as the variables it captures. *)
Inductive Spawn :=
| SpawnRefresh (actual_entry : option CacheEntry) (key : CacheKey)
    (args : list PyVal) (kwargs : Kwargs)
    (configuration_snapshot : CacheConfiguration)
| SpawnTryRelease (key : CacheKey) (configuration_snapshot : CacheConfiguration).

(** Calls the wrapper makes on its collaborators, in the order made. *)
Inductive Event :=
| EvLog (level : LogLevel) (msg : string)
| EvMethodCalled (args : list PyVal) (kwargs : Kwargs)
| EvMarkBeingUpdated (key : CacheKey) (latch : nat)
| EvMarkUpdated (key : CacheKey) (entry : CacheEntry)
| EvMarkUpdateAborted (key : CacheKey) (e : Exception)
| EvSetResult (latch : nat) (e : Exception)
| EvMarkRead (key : CacheKey)
| EvMarkWritten (key : CacheKey) (entry : CacheEntry)
| EvNextToRelease
| EvMarkReleased (key : CacheKey)
| EvCallSoon (task : Spawn).

Record World := {
  clock : Instant;
  storage_state : SS;
  eviction_state : ES;
  (** [UpdateStatuses]: key ↦ latch, the latch being an index in [futures] *)
  updates_in_progress : gmap string nat;
  (** latch futures; [None] while pending, else the result that was set *)
  futures : list (option (CacheEntry + Exception));
  (** number of user works launched so far *)
  launched : nat;
  (** the loop's [call_soon] queue *)
  ready : list Spawn;
  trace : list Event;
}.

Definition record (ev : Event) (w : World) : World :=
  {| clock := clock w; storage_state := storage_state w;
     eviction_state := eviction_state w;
     updates_in_progress := updates_in_progress w; futures := futures w;
     launched := launched w; ready := ready w;
     trace := trace w ++ [ev] |}.

Definition with_eviction_state (es : ES) (w : World) : World :=
  {| clock := clock w; storage_state := storage_state w;
     eviction_state := es;
     updates_in_progress := updates_in_progress w; futures := futures w;
     launched := launched w; ready := ready w; trace := trace w |}.

Definition with_storage_state (ss : SS) (w : World) : World :=
  {| clock := clock w; storage_state := ss;
     eviction_state := eviction_state w;
     updates_in_progress := updates_in_progress w; futures := futures w;
     launched := launched w; ready := ready w; trace := trace w |}.

Definition with_tracker (rows : gmap string nat)
    (futs : list (option (CacheEntry + Exception))) (w : World) : World :=
  {| clock := clock w; storage_state := storage_state w;
     eviction_state := eviction_state w;
     updates_in_progress := rows; futures := futs;
     launched := launched w; ready := ready w; trace := trace w |}.

Definition with_launched (n : nat) (w : World) : World :=
  {| clock := clock w; storage_state := storage_state w;
     eviction_state := eviction_state w;
     updates_in_progress := updates_in_progress w; futures := futures w;
     launched := n; ready := ready w; trace := trace w |}.

Definition with_ready (q : list Spawn) (w : World) : World :=
  {| clock := clock w; storage_state := storage_state w;
     eviction_state := eviction_state w;
     updates_in_progress := updates_in_progress w; futures := futures w;
     launched := launched w; ready := q; trace := trace w |}.

Definition with_clock (t : Instant) (w : World) : World :=
  {| clock := t; storage_state := storage_state w;
     eviction_state := eviction_state w;
     updates_in_progress := updates_in_progress w; futures := futures w;
     launched := launched w; ready := ready w; trace := trace w |}.

(** ** Coroutines *)

(** What a coroutine can be suspended on. *)
Inductive Awaitable :=
| AwStorageGet (st : CacheStorage) (key : CacheKey)
| AwStorageOffer (st : CacheStorage) (key : CacheKey) (entry : CacheEntry)
| AwStorageRelease (st : CacheStorage) (key : CacheKey)
| AwValueFuture (value_future : ValueFuture)
| AwLatch (latch : nat).

Definition answer (aw : Awaitable) : Type :=
  match aw with
  | AwStorageGet _ _ => option CacheEntry
  | AwStorageOffer _ _ _ => unit
  | AwStorageRelease _ _ => unit
  | AwValueFuture _ => PyVal
  | AwLatch _ => (CacheEntry + Exception)%type
  end.

(** One uninterrupted run of a coroutine: it returns, raises, or stops at an
    [await] with the rest of its body as continuation.  The continuation is
    resumed with the awaitable's outcome in whatever world the loop has
    reached by then. *)
Inductive Step (A : Type) :=
| Ret (a : A) (w : World)
| Raise (e : BaseException) (w : World)
| Yield (aw : Awaitable) (w : World)
    (k : Outcome (answer aw) -> World -> Step A).
Arguments Ret {A} a w.
Arguments Raise {A} e w.
Arguments Yield {A} aw w k.

Definition M (A : Type) : Type := World -> Step A.

Fixpoint bindS {A B} (s : Step A) (f : A -> M B) : Step B :=
  match s with
  | Ret a w => f a w
  | Raise e w => Raise e w
  | Yield aw w k => Yield aw w (fun o w' => bindS (k o w') f)
  end.

#[global] Instance M_ret : MRet M := fun A a w => Ret a w.
#[global] Instance M_bind : MBind M := fun A B f m w => bindS (m w) f.

Definition raise {A} (e : BaseException) : M A := fun w => Raise e w.

(** How a resumed [await] expression continues. *)
Definition deliver {A} (o : Outcome A) : M A :=
  match o with
  | Returned x => mret x
  | Raised e => raise e
  end.

Definition await (aw : Awaitable) : M (answer aw) :=
  fun w => Yield aw w deliver.

(** [try: body / except ...: handler]: [handler e] is [None] when no clause
    matches [e]. *)
Fixpoint exceptS {A} (s : Step A) (handler : BaseException -> option (M A))
  : Step A :=
  match s with
  | Ret a w => Ret a w
  | Raise e w =>
      match handler e with
      | Some h => h w
      | None => Raise e w
      end
  | Yield aw w k => Yield aw w (fun o w' => exceptS (k o w') handler)
  end.

Definition try_except {A} (body : M A)
    (handler : BaseException -> option (M A)) : M A :=
  fun w => exceptS (body w) handler.

(** [try: body / finally: cleanup], the cleanup falling through. *)
Fixpoint finallyS {A} (s : Step A) (cleanup : M unit) : Step A :=
  match s with
  | Ret a w => bindS (cleanup w) (fun _ => mret a)
  | Raise e w => bindS (cleanup w) (fun _ => raise e)
  | Yield aw w k => Yield aw w (fun o w' => finallyS (k o w') cleanup)
  end.

Definition try_finally {A} (body : M A) (cleanup : M unit) : M A :=
  fun w => finallyS (body w) cleanup.

(** [try: body / finally: return ...]: the [return] in the [finally] clause
    replaces whatever the body returned or raised. *)
Fixpoint finally_returnS {A B} (s : Step A) (cleanup : M B) : Step B :=
  match s with
  | Ret _ w => cleanup w
  | Raise _ w => cleanup w
  | Yield aw w k => Yield aw w (fun o w' => finally_returnS (k o w') cleanup)
  end.

Definition try_finally_return {A B} (body : M A) (cleanup : M B) : M B :=
  fun w => finally_returnS (body w) cleanup.

(** ** Primitives *)

Definition logger_debug (msg : string) : M unit :=
  fun w => Ret tt (record (EvLog DEBUG msg) w).

Definition logger_error (msg : string) : M unit :=
  fun w => Ret tt (record (EvLog ERROR msg) w).

Definition datetime_now : M Instant := fun w => Ret (clock w) w.

(** A synchronous call on the eviction strategy. *)
Definition eviction_call {X} (ev : Event) (f : ES -> Outcome X * ES) : M X :=
  fun w =>
    let '(o, es) := f (eviction_state w) in
    deliver o (with_eviction_state es (record ev w)).

Definition build_entry (b : EntryBuilder) (key : CacheKey) (v : PyVal)
  : M CacheEntry :=
  fun w => Ret (build b key v (clock w)) w.

(** [asyncio.get_event_loop().call_soon(asyncio.ensure_future, coroutine)] *)
Definition call_soon (task : Spawn) : M unit :=
  fun w => Ret tt (with_ready (ready w ++ [task]) (record (EvCallSoon task) w)).

(** ** Update status tracker *)

Section UpdateStatuses.

(** Modelled from the spec: [memoize.statuses.UpdateStatuses] is not among
    the sources.  Section 4.1 gives its five operations over a registry of
    per-key latches; the registry is [updates_in_progress], a latch is a
    future in [futures].  The spec bounds a latch by [update_lock_timeout];
    time-outs of a waiter reach the model as the outcome the loop resumes it
    with. *)

Definition inconsistent_state : BaseException :=
  Exc (ValueError "inconsistent state").

(** Modelled from the spec: "snapshot membership test". *)
Definition is_being_updated (key : CacheKey) : M bool :=
  fun w =>
    Ret (match updates_in_progress w !! key with
         | Some _ => true
         | None => false
         end) w.

(** Modelled from the spec: "atomically inserts an unresolved latch for
    [key]; returns it".  With a latch already present the spec leaves the
    behaviour undefined; the model refuses the call. *)
Definition mark_being_updated (key : CacheKey) : M nat :=
  fun w =>
    match updates_in_progress w !! key with
    | Some _ => Raise inconsistent_state w
    | None =>
        let latch := length (futures w) in
        Ret latch
          (with_tracker (<[key := latch]> (updates_in_progress w))
             (futures w ++ [None])
             (record (EvMarkBeingUpdated key latch) w))
    end.

(** Modelled from the spec: "if a latch exists, suspend until it resolves and
    return its outcome; if none exists, fails with an inconsistent state
    error". *)
Definition await_updated (key : CacheKey) : M (CacheEntry + Exception) :=
  fun w =>
    match updates_in_progress w !! key with
    | Some latch => await (AwLatch latch) w
    | None => Raise inconsistent_state w
    end.

(** Resolving a latch and dropping its registry row, shared by the two
    operations below.  The spec says nothing of a key without a row; the
    model refuses the call. *)
Definition resolve (key : CacheKey) (result : CacheEntry + Exception)
    (ev : Event) : M unit :=
  fun w =>
    match updates_in_progress w !! key with
    | Some latch =>
        Ret tt
          (with_tracker (delete key (updates_in_progress w))
             (<[latch := Some result]> (futures w))
             (record ev w))
    | None => Raise inconsistent_state w
    end.

(** Modelled from the spec: "resolves the latch with [entry], removes registry
    row". *)
Definition mark_updated (key : CacheKey) (entry : CacheEntry) : M unit :=
  resolve key (inl entry) (EvMarkUpdated key entry).

(** Modelled from the spec: "resolves the latch with a failure carrying
    [cause], removes registry row". *)
Definition mark_update_aborted (key : CacheKey) (cause : Exception) : M unit :=
  resolve key (inr cause) (EvMarkUpdateAborted key cause).

(** [Future.done()] and [Future.set_result(...)] on a latch the caller holds. *)
Definition future_done (latch : nat) : M bool :=
  fun w =>
    Ret (match futures w !! latch with Some (Some _) => true | _ => false end) w.

Definition future_set_result (latch : nat) (e : Exception) : M unit :=
  fun w =>
    Ret tt
      (with_tracker (updates_in_progress w)
         (<[latch := Some (inr e)]> (futures w))
         (record (EvSetResult latch e) w)).

End UpdateStatuses.

(** ** memoize *)

Section Memoize.

Variable method : Method.
Variable configuration : CacheConfiguration.

Definition try_release (key : CacheKey)
    (configuration_snapshot : CacheConfiguration) : M bool :=
  being_updated ← is_being_updated key;
  if being_updated : bool then mret false
  else
    try_except
      (await (AwStorageRelease (storage configuration_snapshot) key);;
       eviction_call (EvMarkReleased key)
         (mark_released (eviction_strategy configuration_snapshot) key);;
       logger_debug "Released cache key %s";;
       mret true)
      (fun exn =>
         match exn with
         | Exc e =>
             Some (logger_error "Failed to release cache key %s";;
                   mret false)
         | CancelledError => None
         end).

Definition refresh (actual_entry : option CacheEntry) (key : CacheKey)
    (value_future_provider : M ValueFuture)
    (configuration_snapshot : CacheConfiguration) : M CacheEntry :=
  being_updated ← is_being_updated key;
  if being_updated : bool then
    match actual_entry with
    | None =>
        logger_debug
          "As no valid entry exists, waiting for results of concurrent refresh %s";;
        entry ← await_updated key;
        match entry with
        | inr e =>
            raise (Exc (CachedMethodFailedException
                          "Concurrent refresh failed to complete" e))
        | inl entry => mret entry
        end
    | Some actual_entry =>
        logger_debug
          "As update point reached but concurrent update already in progress, relying on concurrent refresh to finish %s";;
        mret actual_entry
    end
  else
    value_future ←
      try_except value_future_provider
        (fun exn =>
           match exn with
           | Exc e =>
               Some (logger_debug
                       "Early failure instantiating coroutine for %s: %s";;
                     raise (Exc (CachedMethodFailedException
                                   "Refresh failed to start" e)))
           | CancelledError => None
           end);
    notification_future ← mark_being_updated key;
    try_finally
      (try_except
         (value ← await (AwValueFuture value_future);
          offered_entry ←
            build_entry (entry_builder configuration_snapshot) key value;
          await (AwStorageOffer (storage configuration_snapshot) key
                   offered_entry);;
          mark_updated key offered_entry;;
          logger_debug "Successfully refreshed cache for key %s";;
          try_finally_return
            (try_except
               (let eviction_strategy :=
                  eviction_strategy configuration_snapshot in
                eviction_call (EvMarkWritten key offered_entry)
                  (mark_written eviction_strategy key offered_entry);;
                to_release ←
                  eviction_call EvNextToRelease
                    (next_to_release eviction_strategy);
                match to_release with
                | Some to_release =>
                    call_soon
                      (SpawnTryRelease to_release configuration_snapshot)
                | None => mret tt
                end)
               (fun exn =>
                  match exn with
                  | Exc e =>
                      Some (logger_error
                              "ignoring failure during eviction after successful refresh")
                  | CancelledError => None
                  end))
            (mret offered_entry))
         (fun exn =>
            match exn with
            | Exc TimeoutError =>
                let e := TimeoutError in
                Some (logger_debug "Timeout for %s: %s";;
                      mark_update_aborted key e;;
                      raise (Exc (CachedMethodFailedException
                                    "Refresh timed out" e)))
            | Exc e =>
                Some (logger_debug "Error while refreshing cache for %s: %s";;
                      mark_update_aborted key e;;
                      raise (Exc (CachedMethodFailedException
                                    "Refresh failed to complete" e)))
            | CancelledError => None
            end))
      (let err := RuntimeError "Attempt to exit refresh with unfinished future" in
       being_updated ← is_being_updated key;
       (if being_updated : bool then mark_update_aborted key err
        else mret tt);;
       done ← future_done notification_future;
       if done : bool then mret tt
       else
         future_set_result notification_future err;;
         logger_error
           "Caught attempt to exit refresh for %s with future in unfinished state").

(** The closure [value_future_provider] of [wrapper], over the variables it
    captures: it calls the method on the arguments and wraps the awaitable in
    [wait_for] under the method timeout. *)
Definition value_future_provider (args : list PyVal) (kwargs : Kwargs)
    (configuration_snapshot : CacheConfiguration) : M ValueFuture :=
  fun w =>
    let w := record (EvMethodCalled args kwargs) w in
    match method_call method args kwargs with
    | Some e => Raise e w
    | None =>
        Ret {| work_id := launched w;
               wait_for_timeout := method_timeout configuration_snapshot |}
          (with_launched (S (launched w)) w)
    end.

Definition wrapper (args : list PyVal) (kwargs : Kwargs) : M PyVal :=
  if negb (configured configuration)
  then raise (Exc NotConfiguredCacheCalledException)
  else
    let configuration_snapshot := configuration in
    let '(force_refresh, kwargs) :=
      dict_pop "force_refresh_memoized" (PyBool false) kwargs in
    let key :=
      format_key (key_extractor configuration_snapshot) method args kwargs in
    current_entry ←
      await (AwStorageGet (storage configuration_snapshot) key);
    match current_entry with
    | Some _ =>
        eviction_call (EvMarkRead key)
          (mark_read (eviction_strategy configuration_snapshot) key)
    | None => mret tt
    end;;
    now ← datetime_now;
    let value_future_provider :=
      value_future_provider args kwargs configuration_snapshot in
    result ←
      match current_entry with
      | None =>
          logger_debug "Creating (blocking) entry for key %s";;
          refresh current_entry key value_future_provider
            configuration_snapshot
      | Some entry =>
          if truthy force_refresh then
            logger_debug "Forced entry update (blocking) for key %s";;
            refresh current_entry key value_future_provider
              configuration_snapshot
          else if (expires_after entry <=? now)%Z then
            logger_debug
              "Entry expiration reached - entry update (blocking) for key %s";;
            refresh None key value_future_provider configuration_snapshot
          else if (update_after entry <=? now)%Z then
            logger_debug
              "Entry update point expired - entry update (async - current entry returned) for key %s";;
            call_soon
              (SpawnRefresh current_entry key args kwargs
                 configuration_snapshot);;
            mret entry
          else mret entry
      end;
    mret (apply (postprocessing configuration_snapshot) (value result)).

End Memoize.

(** ** Driving a coroutine from outside

    What the event loop does with a suspended coroutine: look at what it waits
    for, then resume it with a result ([send_*]) or an exception ([throw]).
    A coroutine that is not suspended on a matching awaitable is left as it
    is. *)

Definition awaiting {A} (s : Step A) : option Awaitable :=
  match s with
  | Yield aw _ _ => Some aw
  | _ => None
  end.

Definition world_of {A} (s : Step A) : World :=
  match s with
  | Ret _ w => w
  | Raise _ w => w
  | Yield _ w _ => w
  end.

Definition throw {A} (s : Step A) (e : BaseException) : M A :=
  fun w' =>
    match s with
    | Yield _ _ k => k (Raised e) w'
    | _ => s
    end.

Definition send_entry {A} (s : Step A) (x : option CacheEntry) : M A :=
  fun w' =>
    match s with
    | Yield aw _ k =>
        match aw return (Outcome (answer aw) -> World -> Step A) -> Step A with
        | AwStorageGet _ _ => fun k => k (Returned x) w'
        | _ => fun _ => s
        end k
    | _ => s
    end.

Definition send_done {A} (s : Step A) : M A :=
  fun w' =>
    match s with
    | Yield aw _ k =>
        match aw return (Outcome (answer aw) -> World -> Step A) -> Step A with
        | AwStorageOffer _ _ _ => fun k => k (Returned tt) w'
        | AwStorageRelease _ _ => fun k => k (Returned tt) w'
        | _ => fun _ => s
        end k
    | _ => s
    end.

Definition send_value {A} (s : Step A) (v : PyVal) : M A :=
  fun w' =>
    match s with
    | Yield aw _ k =>
        match aw return (Outcome (answer aw) -> World -> Step A) -> Step A with
        | AwValueFuture _ => fun k => k (Returned v) w'
        | _ => fun _ => s
        end k
    | _ => s
    end.

Definition send_result {A} (s : Step A) (r : CacheEntry + Exception) : M A :=
  fun w' =>
    match s with
    | Yield aw _ k =>
        match aw return (Outcome (answer aw) -> World -> Step A) -> Step A with
        | AwLatch _ => fun k => k (Returned r) w'
        | _ => fun _ => s
        end k
    | _ => s
    end.

(** Every world a coroutine can leave through (by returning or raising)
    satisfies [Q], whatever its awaits deliver, as long as each resumption
    happens in a world satisfying [R]. *)
Fixpoint exits {A} (R Q : World -> Prop) (s : Step A) : Prop :=
  match s with
  | Ret _ w => Q w
  | Raise _ w => Q w
  | Yield _ _ k => forall o w', R w' -> exits R Q (k o w')
  end.

(** ** The event loop

    Tasks of one memoized callable on one loop.  A suspended task is resumed
    in two moves, as on an asyncio loop: first the awaited operation
    completes and fixes its outcome, later the loop runs the task with that
    outcome.  Other tasks may run in between. *)

Inductive TaskResult :=
| RValue (v : PyVal)
| REntry (entry : CacheEntry)
| RBool (b : bool).

Inductive Task :=
| Runnable (run : M TaskResult)
| Suspended (aw : Awaitable) (k : Outcome (answer aw) -> World -> Step TaskResult)
| Finished (r : Outcome TaskResult).

Record System := {
  world : World;
  tasks : list Task;
}.

Inductive Action :=
(** a caller invokes the memoized callable *)
| Call (args : list PyVal) (kwargs : Kwargs)
(** the loop turns the oldest [call_soon] entry into a task *)
| Spawned
(** the loop runs task [i] up to its next [await] *)
| Run (i : nat)
(** the storage performs the operation task [i] awaits *)
| StorageDone (i : nat)
(** the user work task [i] awaits ends with outcome [o] *)
| WorkDone (i : nat) (o : Outcome PyVal)
(** the latch task [i] awaits has been resolved *)
| LatchDone (i : nat)
(** task [i] is cancelled at its [await] *)
| Cancel (i : nat)
(** time passes *)
| Tick (dt : Z).

Definition park (s : Step TaskResult) : World * Task :=
  match s with
  | Ret a w => (w, Finished (Returned a))
  | Raise e w => (w, Finished (Raised e))
  | Yield aw w k => (w, Suspended aw k)
  end.

Definition initial (t0 : Instant) (ss : SS) (es : ES) : System :=
  {| world := {| clock := t0; storage_state := ss; eviction_state := es;
                 updates_in_progress := ∅; futures := []; launched := 0;
                 ready := []; trace := [] |};
     tasks := [] |}.

Section EventLoop.

Variable method : Method.
Variable configuration : CacheConfiguration.

Definition coroutine (t : Spawn) : M TaskResult :=
  match t with
  | SpawnRefresh actual_entry key args kwargs configuration_snapshot =>
      entry ← refresh actual_entry key
                (value_future_provider method args kwargs
                   configuration_snapshot)
                configuration_snapshot;
      mret (REntry entry)
  | SpawnTryRelease key configuration_snapshot =>
      b ← try_release key configuration_snapshot;
      mret (RBool b)
  end.

Definition step (a : Action) (sys : System) : option System :=
  let w := world sys in
  match a with
  | Call args kwargs =>
      Some {| world := w;
              tasks := tasks sys ++
                [Runnable (v ← wrapper method configuration args kwargs;
                           mret (RValue v))] |}
  | Spawned =>
      match ready w with
      | [] => None
      | t :: q =>
          Some {| world := with_ready q w;
                  tasks := tasks sys ++ [Runnable (coroutine t)] |}
      end
  | Run i =>
      match tasks sys !! i with
      | Some (Runnable run) =>
          let '(w', t) := park (run w) in
          Some {| world := w'; tasks := <[i := t]> (tasks sys) |}
      | _ => None
      end
  | StorageDone i =>
      match tasks sys !! i with
      | Some (Suspended aw k) =>
          match aw return (Outcome (answer aw) -> World -> Step TaskResult)
                          -> option System with
          | AwStorageGet st key => fun k =>
              let '(o, ss) := get st key (storage_state w) in
              Some {| world := with_storage_state ss w;
                      tasks := <[i := Runnable (k o)]> (tasks sys) |}
          | AwStorageOffer st key entry => fun k =>
              let '(o, ss) := offer st key entry (storage_state w) in
              Some {| world := with_storage_state ss w;
                      tasks := <[i := Runnable (k o)]> (tasks sys) |}
          | AwStorageRelease st key => fun k =>
              let '(o, ss) := release st key (storage_state w) in
              Some {| world := with_storage_state ss w;
                      tasks := <[i := Runnable (k o)]> (tasks sys) |}
          | _ => fun _ => None
          end k
      | _ => None
      end
  | WorkDone i o =>
      match tasks sys !! i with
      | Some (Suspended aw k) =>
          match aw return (Outcome (answer aw) -> World -> Step TaskResult)
                          -> option System with
          | AwValueFuture _ => fun k =>
              Some {| world := w;
                      tasks := <[i := Runnable (k o)]> (tasks sys) |}
          | _ => fun _ => None
          end k
      | _ => None
      end
  | LatchDone i =>
      match tasks sys !! i with
      | Some (Suspended aw k) =>
          match aw return (Outcome (answer aw) -> World -> Step TaskResult)
                          -> option System with
          | AwLatch latch => fun k =>
              match futures w !! latch with
              | Some (Some r) =>
                  Some {| world := w;
                          tasks := <[i := Runnable (k (Returned r))]>
                                     (tasks sys) |}
              | _ => None
              end
          | _ => fun _ => None
          end k
      | _ => None
      end
  | Cancel i =>
      match tasks sys !! i with
      | Some (Suspended aw k) =>
          Some {| world := w;
                  tasks := <[i := Runnable (k (Raised CancelledError))]>
                             (tasks sys) |}
      | _ => None
      end
  | Tick dt =>
      if (0 <=? dt)%Z
      then Some {| world := with_clock (clock w + dt)%Z w; tasks := tasks sys |}
      else None
  end.

(** A schedule is a list of loop actions; it is refused as a whole when one
    of them does not apply. *)
Fixpoint run (acts : list Action) (sys : System) : option System :=
  match acts with
  | [] => Some sys
  | a :: acts =>
      match step a sys with
      | Some sys' => run acts sys'
      | None => None
      end
  end.

(** *** Reading a trace *)

(** The key a call of the memoized callable is filed under. *)
Definition call_key (args : list PyVal) (kwargs : Kwargs) : CacheKey :=
  format_key (key_extractor configuration) method args kwargs.

(** Where a key stands, going by the trace: no refresh in flight, one in
    flight, or the single-flight discipline broken (user work launched, or the
    key claimed, while a refresh was in flight; a refresh settled that was not
    in flight). *)
Inductive Flight := Idle | InFlight | Broken.

Definition flight_step (key : CacheKey) (st : Flight) (ev : Event) : Flight :=
  match ev with
  | EvMethodCalled args kwargs =>
      if decide (call_key args kwargs = key)
      then match st with Idle => Idle | _ => Broken end
      else st
  | EvMarkBeingUpdated k _ =>
      if decide (k = key)
      then match st with Idle => InFlight | _ => Broken end
      else st
  | EvMarkUpdated k _ =>
      if decide (k = key)
      then match st with InFlight => Idle | _ => Broken end
      else st
  | EvMarkUpdateAborted k _ =>
      if decide (k = key)
      then match st with InFlight => Idle | _ => Broken end
      else st
  | _ => st
  end.

Definition flight (key : CacheKey) (tr : list Event) : Flight :=
  foldl (flight_step key) Idle tr.

(** Number of times the user callable was called. *)
Fixpoint invocations (tr : list Event) : nat :=
  match tr with
  | [] => 0
  | EvMethodCalled _ _ :: tr => S (invocations tr)
  | _ :: tr => invocations tr
  end.

(** *** The single-flight discipline, as an invariant *)

(** Trace and registry agree: a key has a row exactly when, going by the
    trace, a refresh of it is in flight, and the discipline was never
    broken. *)
Definition in_step (w : World) : Prop :=
  forall key,
    flight key (trace w) =
    match updates_in_progress w !! key with
    | Some _ => InFlight
    | None => Idle
    end.

(** A background refresh is filed under the key of the call it will make,
    and it has an entry in hand. *)
Definition spawn_filed (t : Spawn) : Prop :=
  match t with
  | SpawnRefresh actual_entry key args kwargs _ =>
      key = call_key args kwargs /\ is_Some actual_entry
  | SpawnTryRelease _ _ => True
  end.

Definition coherent (w : World) : Prop :=
  in_step w /\ Forall spawn_filed (ready w).

(** A coroutine keeps the world coherent: every world it hands back is
    coherent, provided every world it is resumed in is. *)
Fixpoint sound {A} (s : Step A) : Prop :=
  match s with
  | Ret _ w => coherent w
  | Raise _ w => coherent w
  | Yield _ w k => coherent w /\ forall o w', coherent w' -> sound (k o w')
  end.

Definition msound {A} (m : M A) : Prop :=
  forall w, coherent w -> sound (m w).

Definition msound_when {A} (P : World -> Prop) (m : M A) : Prop :=
  forall w, coherent w -> P w -> sound (m w).

Definition task_sound (t : Task) : Prop :=
  match t with
  | Runnable run => msound run
  | Suspended aw k => forall o, msound (k o)
  | Finished _ => True
  end.

Definition system_sound (sys : System) : Prop :=
  coherent (world sys) /\ Forall task_sound (tasks sys).

(** What a task waiting on a latch does with what the latch delivers: it
    returns the post-processed value of the entry, or raises
    [CachedMethodFailedException] from the failure, and that is the end of
    it. *)
Definition waiter_ok
    (k : Outcome (CacheEntry + Exception) -> World -> Step TaskResult) : Prop :=
  forall w,
    (forall entry,
       k (Returned (inl entry)) w =
       Ret (RValue (apply (postprocessing configuration) (value entry))) w)
    /\ (forall e,
          k (Returned (inr e)) w =
          Raise (Exc (CachedMethodFailedException
                        "Concurrent refresh failed to complete" e)) w).

(** Wherever a coroutine comes to wait on a latch, it waits as above. *)
Fixpoint waits_well (s : Step TaskResult) : Prop :=
  match s with
  | Yield aw _ k =>
      (forall o w', waits_well (k o w'))
      /\ match aw return (Outcome (answer aw) -> World -> Step TaskResult)
                         -> Prop with
         | AwLatch _ => waiter_ok
         | _ => fun _ => True
         end k
  | _ => True
  end.

Definition task_waits (t : Task) : Prop :=
  match t with
  | Runnable run => forall w, waits_well (run w)
  | Suspended aw k => forall w, waits_well (Yield aw w k)
  | Finished _ => True
  end.

(** Events that say nothing about launches, claims and settlements. *)
Definition neutral (ev : Event) : Prop :=
  match ev with
  | EvMethodCalled _ _ => False
  | EvMarkBeingUpdated _ _ => False
  | EvMarkUpdated _ _ => False
  | EvMarkUpdateAborted _ _ => False
  | _ => True
  end.

End EventLoop.

End Model.

Arguments Ret {SS ES A} a w.
Arguments Raise {SS ES A} e w.
Arguments Yield {SS ES A} aw w k.

(** ** The decorator

    [memoize] itself.  Called without a method it returns a decorator,
    [functools.partial(memoize, ...)], after filling in the default
    configuration; called with a method it binds the invalidation handle, if
    one is given and still unbound, and returns the wrapper closed over the
    method and over the configuration as given.  The tracker it is given, or
    creates, is the tracker of the world. *)

Section Decorating.

Context {SS ES : Type}.

(** Modelled from the spec: [memoize.invalidation.InvalidationSupport] is not
    among the sources.  Section 4.6 and the design notes have a handle that
    is bound once to storage, key extractor and callable.  Handles are
    objects shared by reference: they live in a store, by name; a handle is
    initialised when the store holds a binding for it. *)
Record Binding := {
  bound_storage : @CacheStorage SS;
  bound_key_extractor : KeyExtractor;
  bound_method : Method;
}.

Inductive Memoized :=
| MemoizePartial (configuration : @CacheConfiguration SS ES)
    (invalidation : option nat)
| MemoizeWrapper (method : Method)
    (configuration : option (@CacheConfiguration SS ES)).

(** [default_configuration] stands for [DefaultInMemoryCacheConfiguration()],
    which is not among the sources. *)
Definition memoize (default_configuration : @CacheConfiguration SS ES)
    (method : option Method)
    (configuration : option (@CacheConfiguration SS ES))
    (invalidation : option nat) (handles : gmap nat Binding)
  : Memoized * gmap nat Binding :=
  match method with
  | None =>
      let configuration :=
        match configuration with
        | None => default_configuration
        | Some configuration => configuration
        end in
      (MemoizePartial configuration invalidation, handles)
  | Some method =>
      let handles :=
        match invalidation, configuration with
        | Some handle, Some configuration =>
            match handles !! handle with
            | None =>
                <[handle := {| bound_storage := storage configuration;
                               bound_key_extractor :=
                                 key_extractor configuration;
                               bound_method := method |}]> handles
            | Some _ => handles
            end
        | _, _ => handles
        end in
      (MemoizeWrapper method configuration, handles)
  end.

(** Calling what [memoize] returned with a method: a partial passes it on to
    [memoize] with the keywords it fixed. *)
Definition decorate (default_configuration : @CacheConfiguration SS ES)
    (decorator : Memoized) (method : Method) (handles : gmap nat Binding)
  : option (Memoized * gmap nat Binding) :=
  match decorator with
  | MemoizePartial configuration invalidation =>
      Some (memoize default_configuration (Some method) (Some configuration)
              invalidation handles)
  | MemoizeWrapper _ _ => None
  end.

(** Calling the wrapper.  Its first statement is
    [configuration.configured()]; on [None] that is an [AttributeError]. *)
Definition call_memoized (memoized : Memoized) (args : list PyVal)
    (kwargs : Kwargs) : option (@M SS ES PyVal) :=
  match memoized with
  | MemoizeWrapper method (Some configuration) =>
      Some (wrapper method configuration args kwargs)
  | MemoizeWrapper method None =>
      Some (raise (Exc (OtherException "AttributeError")))
  | MemoizePartial _ _ => None
  end.

End Decorating.

(** ** What a coroutine waits for *)

(** Every awaitable the coroutine can come to be suspended on satisfies
    [P], whatever its awaits deliver. *)
Fixpoint awaits_all {SS ES A} (P : @Awaitable SS -> Prop)
    (s : @Step SS ES A) : Prop :=
  match s with
  | Yield aw _ k => P aw /\ forall o w', awaits_all P (k o w')
  | _ => True
  end.

(** The awaitables of a call filed under [key]: lookups and offers on the
    configured storage under that key, user work under the configured
    time-out, latches. *)
Definition of_call {SS ES} (cfg : @CacheConfiguration SS ES) (key : CacheKey)
    (aw : @Awaitable SS) : Prop :=
  match aw with
  | AwStorageGet st k => st = storage cfg /\ k = key
  | AwStorageOffer st k _ => st = storage cfg /\ k = key
  | AwStorageRelease _ _ => False
  | AwValueFuture value_future =>
      wait_for_timeout value_future = method_timeout cfg
  | AwLatch _ => True
  end.

(** The awaitables of a refresh that has an entry in hand: as above, but no
    lookup and no latch. *)
Definition of_background {SS ES} (cfg : @CacheConfiguration SS ES)
    (key : CacheKey) (aw : @Awaitable SS) : Prop :=
  match aw with
  | AwStorageOffer st k _ => st = storage cfg /\ k = key
  | AwValueFuture value_future =>
      wait_for_timeout value_future = method_timeout cfg
  | _ => False
  end.

(** A task of a callable whose configuration is not ready: not yet run, or
    ended with [NotConfiguredCacheCalledException]; never suspended. *)
Definition refused {SS ES} (t : @Task SS ES) : Prop :=
  match t with
  | Runnable run =>
      forall w, run w = Raise (Exc NotConfiguredCacheCalledException) w
  | Suspended _ _ => False
  | Finished r => r = Raised (Exc NotConfiguredCacheCalledException)
  end.

(** ** Sample collaborators *)

(** A storage that keeps a dictionary and never fails.  Like every storage it
    is reached through [await]. *)
Definition dict_storage : @CacheStorage (gmap string CacheEntry) :=
  {| get := fun key ss => (Returned (ss !! key), ss);
     offer := fun key entry ss => (Returned tt, <[key := entry]> ss);
     release := fun key ss => (Returned tt, delete key ss) |}.

(** A storage whose backend is unreachable. *)
Definition unreachable_storage : @CacheStorage (gmap string CacheEntry) :=
  {| get := fun key ss => (Raised (Exc (OtherException "ConnectionError")), ss);
     offer := fun key entry ss =>
       (Raised (Exc (OtherException "ConnectionError")), ss);
     release := fun key ss =>
       (Raised (Exc (OtherException "ConnectionError")), ss) |}.

(** An eviction strategy that keeps the written keys, oldest first, and
    nominates the oldest once more than [capacity] are held. *)
Definition fifo_eviction (capacity : nat) : @EvictionStrategy (list string) :=
  {| mark_read := fun key es => (Returned tt, es);
     mark_written := fun key entry (es : list string) =>
       (Returned tt, if decide (key ∈ es) then es else (es ++ [key])%list);
     mark_released := fun key (es : list string) =>
       (Returned tt, filter (fun k => k ≠ key) es);
     next_to_release := fun es : list string =>
       (Returned (if decide (capacity < length es) then head es else None),
        es) |}.

(** An eviction strategy whose bookkeeping is broken. *)
Definition failing_eviction : @EvictionStrategy (list string) :=
  {| mark_read := fun key es => (Returned tt, es);
     mark_written := fun key entry es =>
       (Raised (Exc (OtherException "EvictionError")), es);
     mark_released := fun key es =>
       (Raised (Exc (OtherException "EvictionError")), es);
     next_to_release := fun es =>
       (Raised (Exc (OtherException "EvictionError")), es) |}.

Definition repr (v : PyVal) : string :=
  match v with
  | PyNone => "None"
  | PyBool true => "True"
  | PyBool false => "False"
  | PyInt z => pretty z
  | PyStr s => "'" +:+ s +:+ "'"
  end.

(** A key extractor that spells the call out. *)
Definition sample_key_extractor : KeyExtractor :=
  {| format_key := fun m args kwargs =>
       method_name m +:+ "(" +:+
       String.concat "," (map repr args ++
                          map (fun '(n, v) => n +:+ "=" +:+ repr v) kwargs)%list
       +:+ ")" |}.

(** Soft update boundary after 10 s, hard expiry after 20 s. *)
Definition sample_entry_builder : EntryBuilder :=
  {| build := fun key v now =>
       {| created := now; update_after := now + 10;
          expires_after := now + 20; value := v |} |}.

Definition sample_configuration (st : @CacheStorage (gmap string CacheEntry))
    (ev : @EvictionStrategy (list string))
  : @CacheConfiguration (gmap string CacheEntry) (list string) :=
  {| configured := true;
     method_timeout := 120;
     entry_builder := sample_entry_builder;
     key_extractor := sample_key_extractor;
     storage := st;
     eviction_strategy := ev;
     postprocessing := {| apply := fun v => v |} |}.

(** An [async def] taking positional arguments only: any named argument makes
    the call itself raise. *)
Definition sample_method : Method :=
  {| method_name := "fetch";
     method_call := fun args kwargs =>
       match kwargs with
       | [] => None
       | _ => Some (Exc (OtherException "TypeError"))
       end |}.

(** A callable that cannot even be started. *)
Definition broken_method : Method :=
  {| method_name := "fetch";
     method_call := fun args kwargs => Some (Exc (OtherException "TypeError")) |}.

(** A world in which nothing has happened yet, and one in which a refresh of
    [key] is in flight. *)
Definition quiet_world : @World (gmap string CacheEntry) (list string) :=
  world (initial 0 ∅ []).

Definition busy_world (key : CacheKey)
  : @World (gmap string CacheEntry) (list string) :=
  with_tracker (<[key := 0]> ∅) [None] quiet_world.

(** The sample configuration, a call of the sample method through it, and
    the refresh of that call suspended on the user work. *)
Definition sample_ready
  : @CacheConfiguration (gmap string CacheEntry) (list string) :=
  sample_configuration dict_storage (fifo_eviction 10).

Definition sample_provider
  : @M (gmap string CacheEntry) (list string) ValueFuture :=
  value_future_provider sample_method [PyStr "a"] [] sample_ready.

Definition sample_future : ValueFuture :=
  {| work_id := 0; wait_for_timeout := 120 |}.

Definition sample_working
  : @Step (gmap string CacheEntry) (list string) CacheEntry :=
  refresh None "fetch('a')" sample_provider sample_ready quiet_world.

(** Two callers of one key on an empty cache.  Both read the storage
    before anything is stored; the first then runs its refresh to the end
    before the loop gets back to the second. *)
Definition stale_read_schedule : list Action :=
  [Call [PyStr "a"] []; Call [PyStr "a"] [];
   Run 0; Run 1; StorageDone 0; StorageDone 1;
   Run 0; WorkDone 0 (Returned (PyStr "X")); Run 0; StorageDone 0; Run 0;
   Run 1; WorkDone 1 (Returned (PyStr "Y")); Run 1; StorageDone 1; Run 1].

(** The same two callers, the second reaching [refresh] while the first
    one's refresh is still in flight. *)
Definition rendezvous_schedule : list Action :=
  [Call [PyStr "a"] []; Call [PyStr "a"] [];
   Run 0; StorageDone 0; Run 0;
   Run 1; StorageDone 1; Run 1;
   WorkDone 0 (Returned (PyStr "X")); Run 0; StorageDone 0; Run 0;
   LatchDone 1; Run 1].

(** One call on an empty cache, run to the end, and whatever the refresh
    handed to [call_soon] run after it. *)
Definition cold_miss_schedule : list Action :=
  [Call [PyStr "a"] []; Run 0; StorageDone 0; Run 0;
   WorkDone 0 (Returned (PyStr "X")); Run 0; StorageDone 0; Run 0].

Definition eviction_schedule : list Action :=
  cold_miss_schedule ++ [Spawned; Run 1; StorageDone 1; Run 1].

(** A call whose storage lookup fails. *)
Definition failed_read_schedule : list Action :=
  [Call [PyStr "a"] []; Run 0; StorageDone 0; Run 0].

(** A configuration that is still being put together. *)
Definition sample_unready
  : @CacheConfiguration (gmap string CacheEntry) (list string) :=
  {| configured := false;
     method_timeout := 120;
     entry_builder := sample_entry_builder;
     key_extractor := sample_key_extractor;
     storage := dict_storage;
     eviction_strategy := fifo_eviction 10;
     postprocessing := {| apply := fun v => v |} |}.

(** An eviction strategy that cannot take note of a read. *)
Definition forgetful_eviction : @EvictionStrategy (list string) :=
  {| mark_read := fun key es =>
       (Raised (Exc (OtherException "EvictionError")), es);
     mark_written := fun key entry es => (Returned tt, es);
     mark_released := fun key es => (Returned tt, es);
     next_to_release := fun es => (Returned None, es) |}.

(** The entry the sample builder makes of ["A"] at time 0. *)
Definition sample_entry : CacheEntry :=
  {| created := 0; update_after := 10; expires_after := 20;
     value := PyStr "A" |}.

(** A call on an empty cache run to the end, and a second call of the same
    key once the entry is past its update point. *)
Definition soft_stale_schedule : list Action :=
  cold_miss_schedule ++
  [Tick 15; Call [PyStr "a"] []; Run 1; StorageDone 1; Run 1].

(** The sample configuration with an eviction strategy that has no room:
    every key written is nominated for release at once. *)
Definition sample_tight
  : @CacheConfiguration (gmap string CacheEntry) (list string) :=
  sample_configuration dict_storage (fifo_eviction 0).

(** A call on an empty cache run to the end; the release it nominated
    started, so that it has looked at the tracker and waits for the storage;
    then the entry left to expire. *)
Definition pending_release_schedule : list Action :=
  cold_miss_schedule ++ [Spawned; Run 1; Tick 30].

(** A second call of the key, run until its refresh has claimed the key and
    waits for the user work. *)
Definition late_release_schedule : list Action :=
  pending_release_schedule ++
  [Call [PyStr "a"] []; Run 2; StorageDone 2; Run 2].

(** A third call, which comes to wait on the latch of that refresh; the
    user work of the refresh done and its offer carried out. *)
Definition offered_schedule : list Action :=
  late_release_schedule ++
  [Call [PyStr "a"] []; Run 3; StorageDone 3; Run 3;
   WorkDone 2 (Returned (PyStr "Y")); Run 2; StorageDone 2].

(** The pending release carried out next, before the refresh is resumed;
    then the refresh and the waiter run to the end. *)
Definition release_between_schedule : list Action :=
  offered_schedule ++ [StorageDone 1; Run 2; LatchDone 3; Run 3].

(** A call on an empty cache run to the end and the entry left to expire; a
    second call, whose refresh claims the key and waits for the user work;
    a third call, forced, run to the end. *)
Definition forced_expired_schedule : list Action :=
  cold_miss_schedule ++
  [Tick 30; Call [PyStr "a"] []; Run 1; StorageDone 1; Run 1;
   Call [PyStr "a"] [("force_refresh_memoized", PyBool true)];
   Run 2; StorageDone 2; Run 2].

(** ** Specification vocabulary *)

(** The refresh that claimed [key] with [latch] still holds its claim. *)
Definition claimed {SS ES} (key : CacheKey) (latch : nat) (w : @World SS ES)
  : Prop :=
  updates_in_progress w !! key = Some latch /\ futures w !! latch = Some None.

(** No refresh of [key] is in flight and [latch] has been resolved. *)
Definition settled {SS ES} (key : CacheKey) (latch : nat) (w : @World SS ES)
  : Prop :=
  updates_in_progress w !! key = None /\
  exists r, futures w !! latch = Some (Some r).

(** The failure the [finally] clause of [refresh] resolves a latch with. *)
Definition unfinished : Exception :=
  RuntimeError "Attempt to exit refresh with unfinished future".

(** What a [mark_update_aborted(key, e)] that finds [latch] registered for
    [key] makes of a world. *)
Definition aborted {SS ES} (key : CacheKey) (latch : nat) (e : Exception)
    (w : @World SS ES) : @World SS ES :=
  with_tracker (delete key (updates_in_progress w))
    (<[latch := Some (inr e)]> (futures w))
    (record (EvMarkUpdateAborted key e) w).

(** ** Who holds a claim *)

Section Ownership.

Context {SS ES : Type}.
Variable configuration : @CacheConfiguration SS ES.
Implicit Types (w : @World SS ES).

(** The tracker and the count of user works are as they were. *)
Definition same_tracker w w' : Prop :=
  updates_in_progress w' = updates_in_progress w
  /\ futures w' = futures w
  /\ launched w' = launched w.

(** [key], idle in [w], is claimed in [w'] with a fresh pending latch, and
    one more user work has been started. *)
Definition claims (key : CacheKey) w w' : Prop :=
  updates_in_progress w !! key = None
  /\ updates_in_progress w' =
       <[key := length (futures w)]> (updates_in_progress w)
  /\ futures w' = futures w ++ [None]
  /\ launched w' = S (launched w).

(** The claim of [key] with [latch] is settled with [result]. *)
Definition settles (key : CacheKey) (latch : nat)
    (result : CacheEntry + Exception) w w' : Prop :=
  updates_in_progress w' = delete key (updates_in_progress w)
  /\ futures w' = <[latch := Some result]> (futures w)
  /\ launched w' = launched w.

(** How a task ends when it settles its refresh with [result]: a call
    returns the post-processed value of the entry, a background refresh the
    entry; a failure is raised as [CachedMethodFailedException] from it; a
    cancelled refresh leaves the "unfinished" failure behind. *)
Definition agrees (r : Outcome TaskResult) (result : CacheEntry + Exception)
  : Prop :=
  match result with
  | inl entry =>
      r = Returned (RValue (apply (postprocessing configuration) (value entry)))
      \/ r = Returned (REntry entry)
  | inr e =>
      (exists msg, r = Raised (Exc (CachedMethodFailedException msg e)))
      \/ (r = Raised CancelledError /\ e = unfinished)
  end.

(** A coroutine that holds the claim of [key] with [latch]: resumed while
    the claim stands, it leaves the tracker alone for as long as it waits,
    and it ends by settling that very claim, with an outcome that agrees with
    what it put on the latch. *)
Fixpoint holding (key : CacheKey) (latch : nat) w0 (s : Step TaskResult)
  : Prop :=
  match s with
  | Ret r w1 =>
      exists result, settles key latch result w0 w1 /\ agrees (Returned r) result
  | Raise e w1 =>
      exists result, settles key latch result w0 w1 /\ agrees (Raised e) result
  | Yield _ w1 k =>
      same_tracker w0 w1
      /\ forall o w', claimed key latch w' -> holding key latch w' (k o w')
  end.

(** A coroutine that holds no claim: it leaves the tracker alone, until it
    claims an idle key, starting one user work in the same move, and waits
    for that work as the holder of the claim. *)
Fixpoint free w0 (s : Step TaskResult) : Prop :=
  match s with
  | Ret _ w1 => same_tracker w0 w1
  | Raise _ w1 => same_tracker w0 w1
  | Yield aw w1 k =>
      (same_tracker w0 w1 /\ forall o w', free w' (k o w'))
      \/ (exists key,
            claims key w0 w1
            /\ (exists value_future,
                  aw = AwValueFuture value_future
                  /\ work_id value_future = launched w0)
            /\ forall o w',
                 claimed key (length (futures w0)) w' ->
                 holding key (length (futures w0)) w' (k o w'))
  end.

(** Tasks, by what they hold. *)
Definition holder (key : CacheKey) (latch : nat) (t : Task) : Prop :=
  match t with
  | Runnable run => forall w, claimed key latch w -> holding key latch w (run w)
  | Suspended aw k =>
      forall o w, claimed key latch w -> holding key latch w (k o w)
  | Finished _ => False
  end.

Definition bystander (t : Task) : Prop :=
  match t with
  | Runnable run => forall w, free w (run w)
  | Suspended aw k => forall o w, free w (k o w)
  | Finished _ => True
  end.

Definition task_held (o : option (CacheKey * nat)) (t : Task) : Prop :=
  match o with
  | Some (key, latch) => holder key latch t
  | None => bystander t
  end.

(** Every task holds what [owners] says; every row of the registry is held
    by a task and every claim held stands; no two tasks hold the same key or
    the same latch; as many user works were started as latches created. *)
Record owned (owners : list (option (CacheKey * nat))) (sys : System)
  : Prop := {
  owned_tasks : Forall2 task_held owners (tasks sys);
  owned_rows : forall key latch,
    updates_in_progress (world sys) !! key = Some latch ->
    exists i, owners !! i = Some (Some (key, latch));
  owned_claims : forall i key latch,
    owners !! i = Some (Some (key, latch)) -> claimed key latch (world sys);
  owned_apart : forall i j key latch key' latch',
    owners !! i = Some (Some (key, latch)) ->
    owners !! j = Some (Some (key', latch')) ->
    i <> j -> key <> key' /\ latch <> latch';
  owned_launched : launched (world sys) = length (futures (world sys));
}.

(** What a step of the loop does to the tracker: nothing; or task [i]
    claims [key] and waits for the work it started; or task [i] settles its
    claim and ends. *)
Definition quiet_step (sys sys' : System) : Prop :=
  same_tracker (world sys) (world sys').

Definition claim_step (i : nat) (key : CacheKey) (sys sys' : System) : Prop :=
  claims key (world sys) (world sys')
  /\ exists value_future k,
       tasks sys' !! i = Some (Suspended (AwValueFuture value_future) k)
       /\ work_id value_future = launched (world sys).

Definition settle_step (i : nat) (key : CacheKey) (latch : nat)
    (sys sys' : System) : Prop :=
  claimed key latch (world sys)
  /\ exists result r,
       settles key latch result (world sys) (world sys')
       /\ tasks sys' !! i = Some (Finished r)
       /\ agrees r result.

End Ownership.

Ltac py_unfold :=
  unfold refresh, try_release, wrapper, value_future_provider, coroutine,
    try_except, try_finally, try_finally_return, await_updated,
    mark_updated, mark_update_aborted, resolve, mark_being_updated,
    is_being_updated, future_done, future_set_result, build_entry,
    eviction_call, call_soon, logger_debug, logger_error, datetime_now,
    await, deliver, raise, mbind, M_bind, mret, M_ret.

Ltac py_step := py_unfold; cbn.

(** Runs a refresh that found the key idle up to its first [await]; the
    names are those of the hypotheses of section [Claimed]. *)
Ltac enter :=
  py_step;
  repeat match goal with
         | H : updates_in_progress _ !! _ = None |- _ => rewrite H; cbn
         | H : _ _ = Ret _ _ |- _ => rewrite H; cbn
         end.

(** Runs tracker calls that find the claim described by [Hrow], [Hfut]. *)
Ltac resolved Hrow Hfut :=
  repeat first
    [ rewrite Hrow
    | rewrite lookup_delete_eq
    | rewrite list_lookup_insert_eq by (eapply lookup_lt_Some; exact Hfut)
    | progress cbn ].

(** Case analysis on everything a run of [refresh] consults. *)
Ltac crunch :=
  repeat (cbn;
    first [ rewrite lookup_delete_eq
          | match goal with
            | H : ?x = _ |- context [match ?x with _ => _ end] => rewrite H
            | |- context [updates_in_progress ?w !! ?k] =>
                is_var w; destruct (updates_in_progress w !! k) eqn:?
            | |- context [mark_written ?a ?b ?c ?d] =>
                destruct (mark_written a b c d) as [[[]|[?|]] ?] eqn:?
            | |- context [next_to_release ?a ?b] =>
                destruct (next_to_release a b) as [[[?|]|[?|]] ?] eqn:?
            | |- context [match ?e with _ => _ end] =>
                is_var e; destruct e
            | |- context [match futures ?w !! ?j with _ => _ end] =>
                destruct (futures w !! j) as [[?|]|] eqn:?
            | |- context [match <[?i:=?x]> ?l !! ?j with _ => _ end] =>
                destruct (<[i:=x]> l !! j) as [[?|]|] eqn:?
            end ]).

(** Case analysis on everything a call of the wrapper consults. *)
Ltac crunch_all :=
  repeat (cbn;
    first [ rewrite lookup_delete_eq
          | match goal with
            | |- forall _, _ => intro
            | |- True => exact I
            | |- _ /\ _ => split
            | H : ?x = _ |- context [match ?x with _ => _ end] => rewrite H
            | |- context [updates_in_progress ?w !! ?k] =>
                is_var w; destruct (updates_in_progress w !! k) eqn:?
            | |- context [mark_read ?a ?b ?c] =>
                destruct (mark_read a b c) as [[[]|[?|]] ?] eqn:?
            | |- context [mark_released ?a ?b ?c] =>
                destruct (mark_released a b c) as [[[]|[?|]] ?] eqn:?
            | |- context [mark_written ?a ?b ?c ?d] =>
                destruct (mark_written a b c d) as [[[]|[?|]] ?] eqn:?
            | |- context [next_to_release ?a ?b] =>
                destruct (next_to_release a b) as [[[?|]|[?|]] ?] eqn:?
            | |- context [method_call ?a ?b ?c] =>
                destruct (method_call a b c) as [[?|]|] eqn:?
            | |- context [truthy ?a] => destruct (truthy a) eqn:?
            | |- context [(?a <=? ?b)%Z] => destruct (a <=? b)%Z eqn:?
            | |- context [match ?e with _ => _ end] =>
                is_var e; destruct e
            | |- context [match futures ?w !! ?j with _ => _ end] =>
                destruct (futures w !! j) as [[?|]|] eqn:?
            | |- context [match <[?i:=?x]> ?l !! ?j with _ => _ end] =>
                destruct (<[i:=x]> l !! j) as [[?|]|] eqn:?
            end ]).

(** Symbolic execution for [free] and [holding]. *)
Ltac settle_here :=
  eexists; split;
  [ repeat split; reflexivity
  | cbn; first [ left; reflexivity | right; reflexivity
               | left; eexists; reflexivity | right; split; reflexivity ] ].

Ltac own :=
  repeat (cbn;
    first [ rewrite lookup_delete_eq
          | rewrite list_lookup_insert_eq by (eapply lookup_lt_Some; eassumption)
          | match goal with
            | |- forall _, _ => intro
            | |- True => exact I
            | H : claimed _ _ _ |- _ => destruct H as [? ?]
            | H : ?x = _ |- context [match ?x with _ => _ end] => rewrite H
            | |- same_tracker _ _ => repeat split; reflexivity
            | |- same_tracker _ _ /\ _ => split
            | |- (same_tracker ?a ?b /\ _) \/ _ =>
                first [ left; split; [repeat split; reflexivity|]
                      | right; eexists; split;
                        [ repeat split; first [eassumption|reflexivity]
                        | split; [eexists; split; reflexivity|] ] ]
            | |- exists result, settles _ _ result _ _ /\ _ => settle_here
            | |- context [updates_in_progress ?w !! ?k] =>
                is_var w; destruct (updates_in_progress w !! k) eqn:?
            | |- context [mark_read ?a ?b ?c] =>
                destruct (mark_read a b c) as [[[]|[?|]] ?] eqn:?
            | |- context [mark_released ?a ?b ?c] =>
                destruct (mark_released a b c) as [[[]|[?|]] ?] eqn:?
            | |- context [mark_written ?a ?b ?c ?d] =>
                destruct (mark_written a b c d) as [[[]|[?|]] ?] eqn:?
            | |- context [next_to_release ?a ?b] =>
                destruct (next_to_release a b) as [[[?|]|[?|]] ?] eqn:?
            | |- context [method_call ?a ?b ?c] =>
                destruct (method_call a b c) as [[?|]|] eqn:?
            | |- context [truthy ?a] => destruct (truthy a) eqn:?
            | |- context [(?a <=? ?b)%Z] => destruct (a <=? b)%Z eqn:?
            | |- context [match ?e with _ => _ end] =>
                is_var e; destruct e
            end ]).

(** * Properties *)

Section Coordinator.

Context {SS ES : Type}.
Implicit Types (w : @World SS ES) (cfg : @CacheConfiguration SS ES).
Implicit Types (provider : @M SS ES ValueFuture).
Implicit Types (key : string) (latch : nat).

(** C3. Entering [refresh] while a refresh of the same key is in flight.
    With no entry in hand the caller waits on the latch registered for the
    key; it returns the entry the latch delivers and raises
    [CachedMethodFailedException('Concurrent refresh failed to complete')]
    from the failure when the latch delivers one.  With an entry in hand the
    caller gets that entry back at once: no await, no user work, the tracker
    untouched. *)
Theorem refresh_rendezvous key provider cfg w latch :
  updates_in_progress w !! key = Some latch ->
  let waiting := refresh None key provider cfg w in
  awaiting waiting = Some (AwLatch latch)
  /\ world_of waiting =
       record (EvLog DEBUG
         "As no valid entry exists, waiting for results of concurrent refresh %s")
         w
  /\ (forall entry w', send_result waiting (inl entry) w' = Ret entry w')
  /\ (forall e w',
        send_result waiting (inr e) w' =
        Raise (Exc (CachedMethodFailedException
                      "Concurrent refresh failed to complete" e)) w')
  /\ (forall actual_entry,
        refresh (Some actual_entry) key provider cfg w =
        Ret actual_entry
          (record (EvLog DEBUG
             "As update point reached but concurrent update already in progress, relying on concurrent refresh to finish %s")
             w)).
Proof.
  intros Hrow waiting. subst waiting.
  py_step. rewrite Hrow. cbn. rewrite Hrow. cbn.
  repeat split; reflexivity.
Qed.

(** C7. When the work factory raises, [refresh] fails with
    [CachedMethodFailedException('Refresh failed to start')] from the cause.
    It leaves the world as the factory left it but for one log line:
    [mark_being_updated] is not called, no latch is created, the key is not
    marked. *)
Theorem refresh_failed_to_start actual_entry key provider cfg w e w1 :
  updates_in_progress w !! key = None ->
  provider w = Raise (Exc e) w1 ->
  let failed := refresh actual_entry key provider cfg w in
  failed =
    Raise (Exc (CachedMethodFailedException "Refresh failed to start" e))
      (record (EvLog DEBUG "Early failure instantiating coroutine for %s: %s")
         w1)
  /\ updates_in_progress (world_of failed) = updates_in_progress w1
  /\ futures (world_of failed) = futures w1.
Proof.
  intros Hrow Hprov failed. subst failed.
  py_step. rewrite Hrow. cbn. rewrite Hprov. cbn. auto.
Qed.

(** C10. [try_release] returns [False] at once, asking nothing of the
    storage, when the tracker reports the key as being updated; the only
    thing it ever asks of the storage is the release of its key, and it asks
    it in a world where that key is not being updated.  Otherwise it
    awaits [storage.release(key)] and then notifies the eviction strategy
    with [mark_released(key)]; it returns [True] when both went through, and
    logs an error and returns [False] when either raised an [Exception]. *)
Theorem try_release_guarded key cfg w :
  (forall latch,
     updates_in_progress w !! key = Some latch ->
     try_release key cfg w = Ret false w)
  /\ (forall aw,
        awaiting (try_release key cfg w) = Some aw ->
        updates_in_progress w !! key = None
        /\ aw = AwStorageRelease (storage cfg) key)
  /\ (updates_in_progress w !! key = None ->
      let releasing := try_release key cfg w in
      awaiting releasing = Some (AwStorageRelease (storage cfg) key)
      /\ world_of releasing = w
      /\ (forall e w',
            throw releasing (Exc e) w' =
            Ret false
              (record (EvLog ERROR "Failed to release cache key %s") w'))
      /\ (forall w' es,
            mark_released (eviction_strategy cfg) key (eviction_state w') =
              (Returned tt, es) ->
            send_done releasing w' =
            Ret true
              (record (EvLog DEBUG "Released cache key %s")
                 (with_eviction_state es (record (EvMarkReleased key) w'))))
      /\ (forall w' e es,
            mark_released (eviction_strategy cfg) key (eviction_state w') =
              (Raised (Exc e), es) ->
            send_done releasing w' =
            Ret false
              (record (EvLog ERROR "Failed to release cache key %s")
                 (with_eviction_state es (record (EvMarkReleased key) w'))))).
Proof.
  split; [|split].
  - intros latch Hrow. py_step. rewrite Hrow. reflexivity.
  - intros aw. py_step.
    destruct (updates_in_progress w !! key) eqn:Hrow; cbn; [done|].
    intros [= <-]. done.
  - intros Hrow releasing. subst releasing.
    py_step. rewrite Hrow. cbn.
    repeat split; try reflexivity.
    + intros w' es Hev. rewrite Hev. reflexivity.
    + intros w' e es Hev. rewrite Hev. reflexivity.
Qed.

End Coordinator.

(** A latch that is resolved stays resolved, and writing it resolves it. *)
Lemma latch_resolved (futs : list (option (CacheEntry + Exception)))
    latch l r :
  latch < length futs ->
  (exists r', futs !! latch = Some (Some r')) \/ l = latch ->
  exists r', <[l := Some r]> futs !! latch = Some (Some r').
Proof.
  intros Hlen [[r' Hr']| ->].
  - destruct (decide (l = latch)) as [->|Hne].
    + rewrite list_lookup_insert_eq by done. eauto.
    + rewrite list_lookup_insert_ne by done. eauto.
  - rewrite list_lookup_insert_eq by done. eauto.
Qed.

(** ** A refresh that claims its key

    [refresh] is entered in a world [w] where no refresh of [key] is in
    flight, and the work factory launches the user work, leaving the tracker
    alone.  [working] is the coroutine, suspended on the value future;
    [latch] is the latch it registered on the way. *)
Section Claimed.

Context {SS ES : Type}.
Implicit Types (w : @World SS ES).

Variable actual_entry : option CacheEntry.
Variable key : string.
Variable provider : @M SS ES ValueFuture.
Variable cfg : @CacheConfiguration SS ES.
Variables (w w1 : @World SS ES) (value_future : ValueFuture).

Hypothesis idle : updates_in_progress w !! key = None.
Hypothesis started : provider w = Ret value_future w1.
Hypothesis still_idle : updates_in_progress w1 !! key = None.

Let latch := length (futures w1).
Let working := refresh actual_entry key provider cfg w.

Lemma refresh_claims :
  awaiting working = Some (AwValueFuture value_future)
  /\ world_of working =
       with_tracker (<[key := latch]> (updates_in_progress w1))
         (futures w1 ++ [None]) (record (EvMarkBeingUpdated key latch) w1)
  /\ claimed key latch (world_of working).
Proof.
  subst working latch. enter.
  split; [reflexivity|]. split; [reflexivity|]. split; cbn.
  - apply lookup_insert_eq.
  - rewrite lookup_app_r by done. by rewrite Nat.sub_diag.
Qed.

(** C5. A refresh that holds its claim and whose awaited work times out calls
    [mark_update_aborted(key, timeout)] and raises
    [CachedMethodFailedException('Refresh timed out')] from the timeout; when
    the work, or the storage offer, raises any other [Exception] [e] it calls
    [mark_update_aborted(key, e)] and raises
    [CachedMethodFailedException('Refresh failed to complete')] from [e].
    Either way the storage is left as it was, the key is no longer being
    updated, and the latch carries the cause. *)
Theorem refresh_failure_aborts w' :
  claimed key latch w' ->
  throw working (Exc TimeoutError) w' =
    Raise (Exc (CachedMethodFailedException "Refresh timed out" TimeoutError))
      (aborted key latch TimeoutError
         (record (EvLog DEBUG "Timeout for %s: %s") w'))
  /\ (forall e, e <> TimeoutError ->
      throw working (Exc e) w' =
        Raise (Exc (CachedMethodFailedException "Refresh failed to complete" e))
          (aborted key latch e
             (record (EvLog DEBUG "Error while refreshing cache for %s: %s")
                w')))
  /\ (forall v,
      let offering := send_value working v w' in
      awaiting offering =
        Some (AwStorageOffer (storage cfg) key
                (build (entry_builder cfg) key v (clock w')))
      /\ world_of offering = w'
      /\ forall e w'', e <> TimeoutError -> claimed key latch w'' ->
           throw offering (Exc e) w'' =
             Raise (Exc (CachedMethodFailedException
                           "Refresh failed to complete" e))
               (aborted key latch e
                  (record (EvLog DEBUG
                     "Error while refreshing cache for %s: %s") w'')))
  /\ (forall e msg,
      let failed := aborted key latch e (record (EvLog DEBUG msg) w') in
      storage_state failed = storage_state w'
      /\ updates_in_progress failed !! key = None
      /\ futures failed !! latch = Some (Some (inr e))
      /\ trace failed =
           trace w' ++ [EvLog DEBUG msg; EvMarkUpdateAborted key e]).
Proof.
  intros [Hrow Hfut]. split; [|split; [|split]].
  - subst working. enter. resolved Hrow Hfut. reflexivity.
  - intros e He. subst working. enter.
    destruct e; try congruence; resolved Hrow Hfut; reflexivity.
  - intros v offering. subst offering working. enter.
    split; [reflexivity|]. split; [reflexivity|].
    intros e w'' He [Hrow' Hfut'].
    destruct e; try congruence; resolved Hrow' Hfut'; reflexivity.
  - intros e msg failed. subst failed. unfold aborted. cbn.
    rewrite lookup_delete_eq.
    rewrite list_lookup_insert_eq by (eapply lookup_lt_Some; exact Hfut).
    rewrite <- app_assoc. auto.
Qed.

(** C4, as the code has it.  A refresh whose work delivered [v] awaits the
    storage offer of the entry built from [v] while its latch is still
    unresolved.  Once the offer has returned it resolves the latch with that
    entry ([mark_updated]), then notifies the eviction strategy
    ([mark_written]), then asks it for a victim; a nominated victim gets a
    [try_release] scheduled with [call_soon], which is not awaited.
    Whatever the eviction strategy does, raising included, the new entry is
    returned.  From the offer's return to its own return the refresh leaves
    the storage as it finds it: what a waiter released by the latch finds
    there is up to the storage and to whatever the loop ran before resuming
    the refresh.  The release scheduled for a victim does nothing when the
    victim is being updated as it starts; otherwise it awaits
    [storage.release(victim)], then calls [mark_released(victim)] and ends
    with [True]; an [Exception] from either is logged and ends it with
    [False]. *)
Theorem refresh_success_order v w' w'' :
  claimed key latch w' ->
  claimed key latch w'' ->
  let offering := send_value working v w' in
  let offered_entry := build (entry_builder cfg) key v (clock w') in
  let finishing := send_done offering w'' in
  (awaiting offering = Some (AwStorageOffer (storage cfg) key offered_entry)
   /\ futures (world_of offering) !! latch = Some None)
  /\ (exists rest,
       finishing = Ret offered_entry (world_of finishing)
       /\ trace (world_of finishing) =
            trace w'' ++
            [EvMarkUpdated key offered_entry;
             EvLog DEBUG "Successfully refreshed cache for key %s";
             EvMarkWritten key offered_entry] ++ rest
       /\ storage_state (world_of finishing) = storage_state w''
       /\ updates_in_progress (world_of finishing) !! key = None
       /\ futures (world_of finishing) !! latch =
            Some (Some (inl offered_entry))
       /\ (forall es1 es2 victim,
             mark_written (eviction_strategy cfg) key offered_entry
               (eviction_state w'') = (Returned tt, es1) ->
             next_to_release (eviction_strategy cfg) es1 =
               (Returned (Some victim), es2) ->
             rest = [EvNextToRelease; EvCallSoon (SpawnTryRelease victim cfg)]
             /\ ready (world_of finishing) =
                  ready w'' ++ [SpawnTryRelease victim cfg])
       /\ (forall es1 es2,
             mark_written (eviction_strategy cfg) key offered_entry
               (eviction_state w'') = (Returned tt, es1) ->
             next_to_release (eviction_strategy cfg) es1 =
               (Returned None, es2) ->
             rest = [EvNextToRelease] /\ ready (world_of finishing) = ready w'')
       /\ (forall e es1,
             mark_written (eviction_strategy cfg) key offered_entry
               (eviction_state w'') = (Raised (Exc e), es1) ->
             rest = [EvLog ERROR
                       "ignoring failure during eviction after successful refresh"])
       /\ (forall e es1 es2,
             mark_written (eviction_strategy cfg) key offered_entry
               (eviction_state w'') = (Returned tt, es1) ->
             next_to_release (eviction_strategy cfg) es1 =
               (Raised (Exc e), es2) ->
             rest = [EvNextToRelease;
                     EvLog ERROR
                       "ignoring failure during eviction after successful refresh"]))
  /\ (forall method victim w0,
        let releasing := coroutine method (SpawnTryRelease victim cfg) w0 in
        (forall l,
           updates_in_progress w0 !! victim = Some l ->
           releasing = Ret (RBool false) w0)
        /\ (updates_in_progress w0 !! victim = None ->
            awaiting releasing = Some (AwStorageRelease (storage cfg) victim)
            /\ world_of releasing = w0
            /\ (forall w3 es,
                  mark_released (eviction_strategy cfg) victim
                    (eviction_state w3) = (Returned tt, es) ->
                  send_done releasing w3 =
                  Ret (RBool true)
                    (record (EvLog DEBUG "Released cache key %s")
                       (with_eviction_state es
                          (record (EvMarkReleased victim) w3))))
            /\ (forall e w3,
                  throw releasing (Exc e) w3 =
                  Ret (RBool false)
                    (record (EvLog ERROR "Failed to release cache key %s") w3))
            /\ (forall e w3 es,
                  mark_released (eviction_strategy cfg) victim
                    (eviction_state w3) = (Raised (Exc e), es) ->
                  send_done releasing w3 =
                  Ret (RBool false)
                    (record (EvLog ERROR "Failed to release cache key %s")
                       (with_eviction_state es
                          (record (EvMarkReleased victim) w3)))))).
Proof.
  intros [Hrow Hfut] [Hrow' Hfut'] offering offered_entry finishing.
  split; [|split].
  - subst offering offered_entry finishing working. enter.
    split; [reflexivity|exact Hfut].
  - subst offering offered_entry finishing working. enter.
    rewrite Hrow'. cbn.
    destruct (mark_written _ _ _ _) as [[[]|[e|]] es1] eqn:Hmw; cbn;
      [destruct (next_to_release _ _) as [[[victim|]|[e|]] es2] eqn:Hnr; cbn| |].
    all: rewrite ?lookup_delete_eq; cbn;
      rewrite ?list_lookup_insert_eq by (eapply lookup_lt_Some; exact Hfut');
      cbn.
    all: eexists; (split; [reflexivity|]);
      (split; [rewrite <- ?app_assoc; cbn; reflexivity|]);
      (split; [reflexivity|]);
      (split; [apply lookup_delete_eq|]);
      (split; [apply list_lookup_insert_eq; eapply lookup_lt_Some; exact Hfut'|]).
    all: repeat split; intros; repeat split; congruence.
  - intros method victim w0 releasing. subst releasing. cbn. py_step.
    split.
    + intros l Hl. rewrite Hl. reflexivity.
    + intros Hidle0. rewrite Hidle0. cbn.
      split; [reflexivity|]. split; [reflexivity|]. split; [|split].
      * intros w3 es Hev. rewrite Hev. reflexivity.
      * reflexivity.
      * intros e w3 es Hev. rewrite Hev. reflexivity.
Qed.

(** C6. Every way out of a refresh that claimed its key (returning,
    raising, being cancelled at either [await]) leaves the key not being
    updated and the latch resolved, as long as the latch future itself is
    still there when the refresh is resumed.  A refresh cancelled while it
    holds its claim aborts the update with the "unfinished" failure; one that
    finds its row gone and its latch pending sets that failure on the latch
    itself. *)
Theorem refresh_exit_settles :
  exits (fun w' => latch < length (futures w')) (settled key latch) working
  /\ (forall w', claimed key latch w' ->
        throw working CancelledError w' =
          Raise CancelledError (aborted key latch unfinished w')
        /\ forall v w'', claimed key latch w'' ->
             throw (send_value working v w') CancelledError w'' =
               Raise CancelledError (aborted key latch unfinished w''))
  /\ (forall w',
        updates_in_progress w' !! key = None ->
        futures w' !! latch = Some None ->
        throw working CancelledError w' =
          Raise CancelledError
            (record (EvLog ERROR
               "Caught attempt to exit refresh for %s with future in unfinished state")
               (with_tracker (updates_in_progress w')
                  (<[latch := Some (inr unfinished)]> (futures w'))
                  (record (EvSetResult latch unfinished) w')))).
Proof.
  split; [|split].
  - subst working. enter. intros o w' Hlen.
    destruct o as [v|[e|]]; cbn;
      [intros o w'' Hlen'; destruct o as [[]|[e|]]| |]; crunch.
    all: unfold settled; cbn; rewrite ?lookup_delete_eq; (split; [done|]).
    all: try (eexists; eassumption).
    all: try (subst latch; apply latch_resolved;
              [by rewrite ?length_insert|]; eauto; fail).
    all: try (rewrite list_lookup_insert_eq by (by rewrite ?length_insert);
              eauto; fail).
    all: exfalso;
      match goal with
      | H : _ !! _ = None |- _ =>
          apply lookup_ge_None in H; rewrite ?length_insert in H;
          subst latch; lia
      end.
  - intros w' [Hrow Hfut]. split.
    + subst working. enter. resolved Hrow Hfut. reflexivity.
    + intros v w'' [Hrow' Hfut']. subst working. enter.
      resolved Hrow' Hfut'. reflexivity.
  - intros w' Hrow Hfut. subst working. enter.
    subst latch. rewrite Hfut. cbn. reflexivity.
Qed.

End Claimed.

(** ** The wrapper facade *)

Lemma dict_pop_absent name default (kwargs : list (string * PyVal)) :
  name ∉ kwargs.*1 -> dict_pop name default kwargs = (default, kwargs).
Proof.
  induction kwargs as [|[n v] rest IH]; cbn; [done|].
  intros Hnot. apply not_elem_of_cons in Hnot as [Hne Hrest].
  destruct (String.eqb n name) eqn:Heq.
  - apply String.eqb_eq in Heq. congruence.
  - by rewrite IH.
Qed.

Lemma dict_pop_present name default (kwargs : list (string * PyVal)) v :
  NoDup kwargs.*1 -> (name, v) ∈ kwargs ->
  (dict_pop name default kwargs).1 = v.
Proof.
  induction kwargs as [|[n v'] rest IH]; cbn; intros Hnd Hin.
  - by apply elem_of_nil in Hin.
  - apply NoDup_cons in Hnd as [Hfresh Hnd].
    destruct (String.eqb n name) eqn:Heq; cbn.
    + apply String.eqb_eq in Heq. subst n.
      apply elem_of_cons in Hin as [Hhd|Htl]; [congruence|].
      exfalso. apply Hfresh. apply list_elem_of_fmap. by exists (name, v).
    + apply String.eqb_neq in Heq.
      apply elem_of_cons in Hin as [Hhd|Htl]; [congruence|].
      specialize (IH Hnd Htl).
      destruct (dict_pop name default rest). exact IH.
Qed.

Lemma dict_pop_removes name default (kwargs : list (string * PyVal)) :
  NoDup kwargs.*1 -> name ∉ (dict_pop name default kwargs).2.*1.
Proof.
  induction kwargs as [|[n v] rest IH]; cbn; intros Hnd.
  - apply not_elem_of_nil.
  - apply NoDup_cons in Hnd as [Hfresh Hnd].
    destruct (String.eqb n name) eqn:Heq; cbn.
    + apply String.eqb_eq in Heq. by subst n.
    + apply String.eqb_neq in Heq. specialize (IH Hnd).
      destruct (dict_pop name default rest) as [r rest']. cbn in *.
      apply not_elem_of_cons. split; [congruence|exact IH].
Qed.

Lemma dict_pop_keeps name default (kwargs : list (string * PyVal)) n v :
  n <> name -> (n, v) ∈ kwargs -> (n, v) ∈ (dict_pop name default kwargs).2.
Proof.
  intros Hne. induction kwargs as [|[n' v'] rest IH]; cbn; intros Hin.
  - by apply elem_of_nil in Hin.
  - destruct (String.eqb n' name) eqn:Heq; cbn.
    + apply String.eqb_eq in Heq. subst n'.
      apply elem_of_cons in Hin as [Hhd|Htl]; [congruence|exact Htl].
    + apply elem_of_cons in Hin as [Hhd|Htl].
      * destruct (dict_pop name default rest). rewrite Hhd.
        apply elem_of_cons. by left.
      * specialize (IH Htl). destruct (dict_pop name default rest).
        apply elem_of_cons. by right.
Qed.

Section Facade.

Context {SS ES : Type}.
Implicit Types (w : @World SS ES).

Variable method : Method.
Variable configuration : @CacheConfiguration SS ES.
Variable args : list PyVal.
Variable kwargs : list (string * PyVal).

(** What the call is left with once the reserved flag has been popped. *)
Let popped := dict_pop "force_refresh_memoized" (PyBool false) kwargs.
Let force_refresh := popped.1.
Let named := popped.2.
Let key := format_key (key_extractor configuration) method args named.
Let provider := value_future_provider method args named configuration.
Let post : CacheEntry -> @M SS ES PyVal :=
  fun result => mret (apply (postprocessing configuration) (value result)).

(** The dispatch table.  With a ready configuration the call awaits
    [storage.get(key)] and
    then dispatches on what it got and on the clock.  No entry: blocking
    refresh with [None].  Flag set: blocking refresh with the entry.  Entry
    with [expires_after <= now]: blocking refresh with [None], so that the
    outcome does not depend on the expired entry at all.  Entry with
    [update_after <= now < expires_after]: a refresh with the entry is
    handed to [call_soon] and the entry is returned at once.  Entry with
    [now < update_after]: returned, nothing else happens.  A blocking refresh
    runs inside the call, and the call returns the post-processed value of
    the entry the refresh returns; the other two branches return the
    post-processed value of the entry read. *)
Theorem wrapper_dispatch w :
  configured configuration = true ->
  let calling := wrapper method configuration args kwargs w in
  (awaiting calling = Some (AwStorageGet (storage configuration) key)
   /\ world_of calling = w)
  /\ (forall w',
        send_entry calling None w' =
        (refresh None key provider configuration ≫= post)
          (record (EvLog DEBUG "Creating (blocking) entry for key %s") w'))
  /\ (forall entry w' es,
        mark_read (eviction_strategy configuration) key (eviction_state w') =
          (Returned tt, es) ->
        let seen := with_eviction_state es (record (EvMarkRead key) w') in
        let now := clock w' in
        (truthy force_refresh = true ->
           send_entry calling (Some entry) w' =
           (refresh (Some entry) key provider configuration ≫= post)
             (record (EvLog DEBUG "Forced entry update (blocking) for key %s")
                seen))
        /\ (truthy force_refresh = false ->
            (expires_after entry <= now)%Z ->
            send_entry calling (Some entry) w' =
            (refresh None key provider configuration ≫= post)
              (record (EvLog DEBUG
                 "Entry expiration reached - entry update (blocking) for key %s")
                 seen))
        /\ (truthy force_refresh = false ->
            (update_after entry <= now < expires_after entry)%Z ->
            let background :=
              SpawnRefresh (Some entry) key args named configuration in
            send_entry calling (Some entry) w' =
            Ret (apply (postprocessing configuration) (value entry))
              (with_ready (ready w' ++ [background])
                 (record (EvCallSoon background)
                    (record (EvLog DEBUG
                       "Entry update point expired - entry update (async - current entry returned) for key %s")
                       seen))))
        /\ (truthy force_refresh = false ->
            (update_after entry <= expires_after entry)%Z ->
            (now < update_after entry)%Z ->
            send_entry calling (Some entry) w' =
            Ret (apply (postprocessing configuration) (value entry)) seen))
  /\ (forall entry entry' w',
        truthy force_refresh = false ->
        (expires_after entry <= clock w')%Z ->
        (expires_after entry' <= clock w')%Z ->
        send_entry calling (Some entry) w' =
        send_entry calling (Some entry') w').
Proof.
  intros Hready calling. subst calling.
  unfold wrapper. rewrite Hready. cbn [negb].
  subst key provider post force_refresh named popped.
  destruct (dict_pop _ _ _) as [flag rest]. cbn [fst snd].
  split; [split; reflexivity|]. split; [reflexivity|]. split.
  - intros entry w' es Hread.
    unfold send_entry, await, mbind, M_bind, eviction_call, datetime_now,
      deliver. cbn.
    rewrite Hread. cbn.
    repeat split.
    + intros ->. reflexivity.
    + intros -> Hexp. apply Z.leb_le in Hexp. rewrite Hexp. reflexivity.
    + intros -> [Hupd Hexp]. apply Z.leb_le in Hupd. apply Z.leb_gt in Hexp.
      rewrite Hexp, Hupd. reflexivity.
    + intros -> Hinv Hfresh.
      assert (Hexp : (expires_after entry <=? clock w')%Z = false)
        by (apply Z.leb_gt; lia).
      apply Z.leb_gt in Hfresh. rewrite Hexp, Hfresh. reflexivity.
  - intros entry entry' w' -> Hexp Hexp'.
    apply Z.leb_le in Hexp, Hexp'.
    unfold send_entry, await, mbind, M_bind, eviction_call, datetime_now,
      deliver. cbn.
    destruct (mark_read _ _ _) as [[[]|e] es]; cbn; [|reflexivity].
    rewrite Hexp, Hexp'. reflexivity.
Qed.

(** C8, as the code has it.  An exception raised by [storage.get(key)]
    leaves the call as it is: nothing is logged, the eviction strategy is not
    notified, no refresh is started.  The call treats the key as missing only
    when [get] returns [None]. *)
Theorem wrapper_get_failure_propagates w :
  configured configuration = true ->
  let calling := wrapper method configuration args kwargs w in
  awaiting calling = Some (AwStorageGet (storage configuration) key)
  /\ (forall e w', throw calling e w' = Raise e w')
  /\ (forall w',
        send_entry calling None w' =
        (refresh None key provider configuration ≫= post)
          (record (EvLog DEBUG "Creating (blocking) entry for key %s") w')).
Proof.
  intros Hready calling. subst calling.
  unfold wrapper. rewrite Hready. cbn [negb].
  subst key provider post force_refresh named popped.
  destruct (dict_pop _ _ _) as [flag rest]. cbn [fst snd].
  repeat split; reflexivity.
Qed.

(** C9, as the code has it.  The reserved named argument is called
    [force_refresh_memoized] and defaults to [False].  It is popped before
    the key is derived, so neither the key extractor nor the user callable
    sees it; every other named argument, one called [force_refresh]
    included, stays and is seen by both.  When the flag is true and the
    storage holds an entry, the call runs a blocking refresh with that entry
    as the current one. *)
Theorem wrapper_strips_flag w :
  configured configuration = true ->
  NoDup kwargs.*1 ->
  let calling := wrapper method configuration args kwargs w in
  ("force_refresh_memoized" ∉ named.*1)
  /\ ("force_refresh_memoized" ∉ kwargs.*1 ->
      force_refresh = PyBool false /\ named = kwargs)
  /\ (forall v, ("force_refresh_memoized", v) ∈ kwargs -> force_refresh = v)
  /\ (forall n v,
        n <> "force_refresh_memoized" -> (n, v) ∈ kwargs -> (n, v) ∈ named)
  /\ awaiting calling =
       Some (AwStorageGet (storage configuration)
               (format_key (key_extractor configuration) method args named))
  /\ (forall w0,
        trace (world_of (provider w0)) = trace w0 ++ [EvMethodCalled args named]
        /\ (provider w0 = Ret {| work_id := launched w0;
                                 wait_for_timeout := method_timeout configuration |}
                            (world_of (provider w0))
            <-> method_call method args named = None))
  /\ (forall entry w' es,
        truthy force_refresh = true ->
        mark_read (eviction_strategy configuration) key (eviction_state w') =
          (Returned tt, es) ->
        send_entry calling (Some entry) w' =
        (refresh (Some entry) key provider configuration ≫= post)
          (record (EvLog DEBUG "Forced entry update (blocking) for key %s")
             (with_eviction_state es (record (EvMarkRead key) w')))).
Proof.
  intros Hready Hnd calling. subst calling.
  split; [apply dict_pop_removes, Hnd|].
  split.
  { intros Habs. subst force_refresh named popped.
    by rewrite dict_pop_absent. }
  split; [intros v Hin; by apply dict_pop_present|].
  split; [intros n v Hne Hin; by apply dict_pop_keeps|].
  unfold wrapper. rewrite Hready. cbn [negb].
  subst key provider post force_refresh named popped.
  destruct (dict_pop _ _ _) as [flag rest]. cbn [fst snd].
  split; [reflexivity|]. split.
  - intros w0. unfold value_future_provider.
    destruct (method_call method args rest); cbn; (split; [reflexivity|]);
      split; congruence.
  - intros entry w' es -> Hread.
    unfold send_entry, await, mbind, M_bind, eviction_call, datetime_now,
      deliver. cbn.
    rewrite Hread. reflexivity.
Qed.

End Facade.

(** ** Single flight on every schedule *)

Section SingleFlight.

Context {SS ES : Type}.
Variable method : Method.
Variable configuration : @CacheConfiguration SS ES.
Implicit Types (w : @World SS ES).

Local Abbreviation flight := (flight method configuration).
Local Abbreviation flight_step := (flight_step method configuration).
Local Abbreviation call_key := (call_key method configuration).
Local Abbreviation coherent := (coherent method configuration).
Local Abbreviation spawn_filed := (spawn_filed method configuration).
Local Abbreviation sound := (sound method configuration).
Local Abbreviation msound := (msound method configuration).
Local Abbreviation msound_when := (msound_when method configuration).
Local Abbreviation task_sound := (task_sound method configuration).
Local Abbreviation system_sound := (system_sound method configuration).

Lemma flight_snoc key tr ev :
  flight key (tr ++ [ev]) =
  flight_step key (flight key tr) ev.
Proof. unfold flight. by rewrite foldl_app. Qed.

Lemma coherent_record ev w : neutral ev -> coherent w -> coherent (record ev w).
Proof.
  intros Hn [Hs Hr]. split; [|exact Hr].
  intros key. cbn -[flight]. rewrite flight_snoc, Hs.
  destruct ev; cbn in *; done.
Qed.

Lemma sound_bindS {A B} (s : Step A) (f : A -> M B) :
  sound s -> (forall a, msound (f a)) -> sound (bindS s f).
Proof.
  intros Hs Hf. induction s as [a w|e w|aw w k IH]; cbn in *.
  - by apply Hf.
  - done.
  - destruct Hs as [Hw Hk]. split; [done|]. intros o w' Hw'. apply IH, Hk, Hw'.
Qed.

Lemma sound_exceptS {A} (s : Step A) handler :
  sound s -> (forall e h, handler e = Some h -> msound h) ->
  sound (exceptS s handler).
Proof.
  intros Hs Hh. induction s as [a w|e w|aw w k IH]; cbn in *.
  - done.
  - destruct (handler e) as [h|] eqn:He; [by eapply Hh|done].
  - destruct Hs as [Hw Hk]. split; [done|]. intros o w' Hw'. apply IH, Hk, Hw'.
Qed.

Lemma sound_finallyS {A} (s : Step A) cleanup :
  sound s -> msound cleanup -> sound (finallyS s cleanup).
Proof.
  intros Hs Hc. induction s as [a w|e w|aw w k IH]; cbn in *.
  - apply sound_bindS; [by apply Hc|]. intros _ w' Hw'. exact Hw'.
  - apply sound_bindS; [by apply Hc|]. intros _ w' Hw'. exact Hw'.
  - destruct Hs as [Hw Hk]. split; [done|]. intros o w' Hw'. apply IH, Hk, Hw'.
Qed.

Lemma sound_finally_returnS {A B} (s : Step A) (cleanup : M B) :
  sound s -> msound cleanup -> sound (finally_returnS s cleanup).
Proof.
  intros Hs Hc. induction s as [a w|e w|aw w k IH]; cbn in *.
  - by apply Hc.
  - by apply Hc.
  - destruct Hs as [Hw Hk]. split; [done|]. intros o w' Hw'. apply IH, Hk, Hw'.
Qed.

Lemma msound_bind {A B} (m : M A) (f : A -> M B) :
  msound m -> (forall a, msound (f a)) -> msound (m ≫= f).
Proof. intros Hm Hf w Hw. apply sound_bindS; [by apply Hm|done]. Qed.

Lemma msound_ret {A} (a : A) : msound (mret a).
Proof. intros w Hw. exact Hw. Qed.

Lemma msound_raise {A} e : msound (@raise SS ES A e).
Proof. intros w Hw. exact Hw. Qed.

Lemma msound_deliver {A} (o : Outcome A) : msound (deliver o).
Proof. destruct o; [apply msound_ret|apply msound_raise]. Qed.

Lemma msound_await aw : msound (await aw).
Proof. intros w Hw. split; [done|]. intros o. apply msound_deliver. Qed.

Lemma msound_try_except {A} (body : M A) handler :
  msound body -> (forall e h, handler e = Some h -> msound h) ->
  msound (try_except body handler).
Proof. intros Hb Hh w Hw. apply sound_exceptS; [by apply Hb|done]. Qed.

Lemma msound_try_finally {A} (body : M A) cleanup :
  msound body -> msound cleanup -> msound (try_finally body cleanup).
Proof. intros Hb Hc w Hw. apply sound_finallyS; [by apply Hb|done]. Qed.

Lemma msound_try_finally_return {A B} (body : M A) (cleanup : M B) :
  msound body -> msound cleanup -> msound (try_finally_return body cleanup).
Proof. intros Hb Hc w Hw. apply sound_finally_returnS; [by apply Hb|done]. Qed.

Lemma msound_logger_debug msg : msound (logger_debug msg).
Proof. intros w Hw. by apply coherent_record. Qed.

Lemma msound_logger_error msg : msound (logger_error msg).
Proof. intros w Hw. by apply coherent_record. Qed.

Lemma msound_datetime_now : msound datetime_now.
Proof. intros w Hw. exact Hw. Qed.

Lemma msound_build_entry b key v : msound (build_entry b key v).
Proof. intros w Hw. exact Hw. Qed.

Lemma msound_eviction_call {X} ev (f : ES -> Outcome X * ES) :
  neutral ev -> msound (eviction_call ev f).
Proof.
  intros Hn w Hw. unfold eviction_call.
  destruct (f (eviction_state w)) as [o es].
  apply msound_deliver. apply (coherent_record ev) in Hw; [|done].
  destruct Hw as [Hs Hr]. split; [exact Hs|exact Hr].
Qed.

Lemma msound_call_soon t : spawn_filed t -> msound (call_soon t).
Proof.
  intros Ht w Hw. apply (coherent_record (EvCallSoon t)) in Hw; [|done].
  destruct Hw as [Hs Hr]. split; [exact Hs|].
  cbn. apply Forall_app. split; [exact Hr|]. by apply Forall_singleton.
Qed.

Lemma msound_is_being_updated key : msound (is_being_updated key).
Proof. intros w Hw. exact Hw. Qed.

Lemma msound_future_done latch : msound (future_done latch).
Proof. intros w Hw. exact Hw. Qed.

Lemma msound_future_set_result latch e : msound (future_set_result latch e).
Proof.
  intros w Hw. apply (coherent_record (EvSetResult latch e)) in Hw; [|done].
  destruct Hw as [Hs Hr]. split; [exact Hs|exact Hr].
Qed.

Lemma msound_mark_being_updated key : msound (mark_being_updated key).
Proof.
  intros w [Hs Hr]. unfold mark_being_updated.
  destruct (updates_in_progress w !! key) as [l|] eqn:Hrow; [by split|].
  split; [|exact Hr]. intros k. cbn -[flight]. rewrite flight_snoc, Hs. cbn.
  destruct (decide (key = k)) as [->|Hne].
  - by rewrite Hrow, lookup_insert_eq.
  - by rewrite lookup_insert_ne.
Qed.

Lemma msound_await_updated key : msound (await_updated key).
Proof.
  intros w Hw. unfold await_updated.
  destruct (updates_in_progress w !! key); [by apply msound_await|done].
Qed.

Lemma msound_mark_updated key entry : msound (mark_updated key entry).
Proof.
  intros w [Hs Hr]. unfold mark_updated, resolve.
  destruct (updates_in_progress w !! key) as [l|] eqn:Hrow; [|by split].
  split; [|exact Hr]. intros k. cbn -[flight]. rewrite flight_snoc, Hs. cbn.
  destruct (decide (key = k)) as [->|Hne].
  - by rewrite Hrow, lookup_delete_eq.
  - by rewrite lookup_delete_ne.
Qed.

Lemma msound_mark_update_aborted key e : msound (mark_update_aborted key e).
Proof.
  intros w [Hs Hr]. unfold mark_update_aborted, resolve.
  destruct (updates_in_progress w !! key) as [l|] eqn:Hrow; [|by split].
  split; [|exact Hr]. intros k. cbn -[flight]. rewrite flight_snoc, Hs. cbn.
  destruct (decide (key = k)) as [->|Hne].
  - by rewrite Hrow, lookup_delete_eq.
  - by rewrite lookup_delete_ne.
Qed.

Lemma sound_value_future_provider args kwargs cfg w :
  coherent w ->
  updates_in_progress w !! call_key args kwargs = None ->
  sound (value_future_provider method args kwargs cfg w).
Proof.
  intros [Hs Hr] Hrow. unfold value_future_provider.
  assert (Hw : coherent (record (EvMethodCalled args kwargs) w)).
  { split; [|exact Hr]. intros k. cbn -[flight]. rewrite flight_snoc, Hs. cbn.
    destruct (decide (call_key args kwargs = k)) as [<-|Hne];
      [by rewrite Hrow|done]. }
  destruct (method_call method args kwargs); exact Hw.
Qed.


Lemma msound_when_bind {A B} P (m : M A) (f : A -> M B) :
  msound_when P m -> (forall a, msound (f a)) -> msound_when P (m ≫= f).
Proof. intros Hm Hf w Hw HP. apply sound_bindS; [by apply Hm|done]. Qed.

Lemma msound_when_try_except {A} P (body : M A) handler :
  msound_when P body -> (forall e h, handler e = Some h -> msound h) ->
  msound_when P (try_except body handler).
Proof. intros Hb Hh w Hw HP. apply sound_exceptS; [by apply Hb|done]. Qed.

Lemma msound_if_being_updated {A} key (f : bool -> M A) :
  msound (f true) ->
  msound_when (fun w => updates_in_progress w !! key = None) (f false) ->
  msound (is_being_updated key ≫= f).
Proof.
  intros Ht Hf w Hw. unfold mbind, M_bind, is_being_updated. cbn [bindS].
  destruct (updates_in_progress w !! key) eqn:Hrow; [by apply Ht|by apply Hf].
Qed.

Ltac handlers :=
  let e := fresh "e" in let h := fresh "h" in let Hh := fresh "Hh" in
  intros e h Hh; destruct e as [[]|]; cbn in Hh; simplify_eq.

Ltac msound_step :=
  first
    [ apply msound_ret | apply msound_raise | apply msound_logger_debug
    | apply msound_logger_error | apply msound_datetime_now
    | apply msound_build_entry | apply msound_await
    | apply msound_is_being_updated | apply msound_future_done
    | apply msound_future_set_result | apply msound_mark_being_updated
    | apply msound_await_updated | apply msound_mark_updated
    | apply msound_mark_update_aborted
    | apply msound_eviction_call; exact I
    | apply msound_call_soon; exact I
    | apply msound_bind; [|intros ?]
    | apply msound_try_except; [|handlers]
    | apply msound_try_finally
    | apply msound_try_finally_return
    | match goal with
      | |- msound (match ?x with _ => _ end) => destruct x
      | |- msound (if ?b then _ else _) => destruct b
      end ].

Lemma try_release_sound key cfg : msound (try_release key cfg).
Proof. unfold try_release. repeat msound_step. Qed.

Lemma refresh_sound actual_entry key provider cfg :
  msound_when (fun w => updates_in_progress w !! key = None) provider ->
  msound (refresh actual_entry key provider cfg).
Proof.
  intros Hp. unfold refresh. apply msound_if_being_updated.
  - repeat msound_step.
  - apply msound_when_bind.
    + apply msound_when_try_except; [exact Hp|]. handlers; repeat msound_step.
    + intros value_future. repeat msound_step.
Qed.

Lemma provider_sound args kwargs cfg :
  msound_when
    (fun w => updates_in_progress w !! call_key args kwargs = None)
    (value_future_provider method args kwargs cfg).
Proof. intros w Hw Hrow. by apply sound_value_future_provider. Qed.

Lemma wrapper_sound args kwargs :
  msound (wrapper method configuration args kwargs).
Proof.
  unfold wrapper. destruct (configured configuration); cbn [negb];
    [|apply msound_raise].
  destruct (dict_pop _ _ _) as [flag named].
  repeat first
    [ apply refresh_sound, provider_sound
    | apply msound_call_soon; split; [reflexivity|by eexists]
    | msound_step ].
Qed.

Lemma coroutine_sound t :
  spawn_filed t -> msound (coroutine method t).
Proof.
  destruct t as [cur key args kwargs cfg|key cfg]; cbn; intros Ht.
  - destruct Ht as [-> _].
    apply msound_bind; [apply refresh_sound, provider_sound|].
    intros ?. apply msound_ret.
  - apply msound_bind; [apply try_release_sound|]. intros ?. apply msound_ret.
Qed.

Lemma coherent_same w w' :
  trace w' = trace w -> updates_in_progress w' = updates_in_progress w ->
  ready w' = ready w -> coherent w -> coherent w'.
Proof.
  intros Ht Hu Hr [Hs Hq]. split.
  - intros key. rewrite Ht, Hu. apply Hs.
  - by rewrite Hr.
Qed.

Lemma step_sound a sys sys' :
  system_sound sys -> step method configuration a sys = Some sys' ->
  system_sound sys'.
Proof.
  intros [Hw Ht] Hstep. destruct a; cbn in Hstep.
  - simplify_eq. split; [done|]. cbn. apply Forall_app. split; [done|].
    apply Forall_singleton. cbn.
    apply msound_bind; [apply wrapper_sound|]. intros ?. apply msound_ret.
  - destruct (ready (world sys)) as [|t q] eqn:Hq; simplify_eq.
    destruct Hw as [Hs Hr]. rewrite Hq in Hr. apply Forall_cons in Hr as [Hf Hr].
    split; [split; [exact Hs|exact Hr]|]. cbn. apply Forall_app. split; [done|].
    apply Forall_singleton. by apply coroutine_sound.
  - destruct (tasks sys !! i) as [[run|aw k|r]|] eqn:Hi; simplify_eq.
    pose proof (Forall_lookup_1 _ _ _ _ Ht Hi) as Hrun. cbn in Hrun.
    specialize (Hrun _ Hw).
    destruct (run (world sys)) as [v w'|e w'|aw w' k]; cbn in *; simplify_eq;
      (split; [tauto|]); cbn; apply Forall_insert; try done.
    cbn. intros o w'' Hw''. by apply Hrun.
  - destruct (tasks sys !! i) as [[run|aw k|r]|] eqn:Hi; simplify_eq.
    pose proof (Forall_lookup_1 _ _ _ _ Ht Hi) as Hk. cbn in Hk.
    destruct aw; simplify_eq.
    + destruct (get _ _ _) as [o ss]. simplify_eq.
      split; [by apply (coherent_same (world sys))|]. cbn. apply Forall_insert; [done|]. cbn. apply Hk.
    + destruct (offer _ _ _ _) as [o ss]. simplify_eq.
      split; [by apply (coherent_same (world sys))|]. cbn. apply Forall_insert; [done|]. cbn. apply Hk.
    + destruct (release _ _ _) as [o ss]. simplify_eq.
      split; [by apply (coherent_same (world sys))|]. cbn. apply Forall_insert; [done|]. cbn. apply Hk.
  - destruct (tasks sys !! i) as [[run|aw k|r]|] eqn:Hi; simplify_eq.
    pose proof (Forall_lookup_1 _ _ _ _ Ht Hi) as Hk. cbn in Hk.
    destruct aw; simplify_eq.
    split; [done|]. cbn. apply Forall_insert; [done|]. cbn. apply Hk.
  - destruct (tasks sys !! i) as [[run|aw k|r]|] eqn:Hi; simplify_eq.
    pose proof (Forall_lookup_1 _ _ _ _ Ht Hi) as Hk. cbn in Hk.
    destruct aw; simplify_eq.
    destruct (futures (world sys) !! latch) as [[r|]|]; simplify_eq.
    split; [done|]. cbn. apply Forall_insert; [done|]. cbn. apply Hk.
  - destruct (tasks sys !! i) as [[run|aw k|r]|] eqn:Hi; simplify_eq.
    pose proof (Forall_lookup_1 _ _ _ _ Ht Hi) as Hk. cbn in Hk.
    split; [done|]. cbn. apply Forall_insert; [done|]. cbn. apply Hk.
  - destruct (0 <=? dt)%Z; simplify_eq.
    split; [by apply (coherent_same (world sys))|done].
Qed.

Lemma run_sound acts sys sys' :
  system_sound sys -> run method configuration acts sys = Some sys' ->
  system_sound sys'.
Proof.
  revert sys. induction acts as [|a acts IH]; cbn; intros sys Hs Hrun.
  - by simplify_eq.
  - destruct (step method configuration a sys) as [sys1|] eqn:Hstep; [|done].
    eapply IH; [|exact Hrun]. by eapply step_sound.
Qed.

Local Abbreviation waiter_ok := (waiter_ok configuration).
Local Abbreviation waits_well := (waits_well configuration).
Local Abbreviation task_waits := (task_waits configuration).

Lemma wrapper_waits_well args kwargs w :
  waits_well
    ((v ← wrapper method configuration args kwargs; mret (RValue v)) w).
Proof.
  unfold wrapper. destruct (configured configuration); cbn [negb]; [|exact I].
  destruct (dict_pop _ _ _) as [flag named].
  py_step. crunch_all.
  all: unfold waiter_ok; intros; split; intros; reflexivity.
Qed.

Lemma coroutine_waits_well t w :
  spawn_filed t -> waits_well (coroutine method t w).
Proof.
  destruct t as [cur key args kwargs cfg|key cfg]; cbn.
  - intros [_ [entry ->]]. py_step. crunch_all.
  - intros _. py_step. crunch_all.
Qed.

Lemma waits_well_resumed aw w (k : Outcome (answer aw) -> _) o w' :
  waits_well (Yield aw w k) -> waits_well (k o w').
Proof. intros [Hk _]. apply Hk. Qed.

Lemma step_waits a sys sys' :
  system_sound sys -> Forall task_waits (tasks sys) ->
  step method configuration a sys = Some sys' ->
  Forall task_waits (tasks sys').
Proof.
  intros [[_ Hq] _] Ht Hstep. destruct a; cbn in Hstep.
  - simplify_eq. cbn. apply Forall_app. split; [done|].
    apply Forall_singleton. intros w. apply wrapper_waits_well.
  - destruct (ready (world sys)) as [|t q] eqn:Hr; simplify_eq.
    apply Forall_cons in Hq as [Hf _].
    cbn. apply Forall_app. split; [done|].
    apply Forall_singleton. intros w. by apply coroutine_waits_well.
  - destruct (tasks sys !! i) as [[run|aw k|r]|] eqn:Hi; simplify_eq.
    pose proof (Forall_lookup_1 _ _ _ _ Ht Hi (world sys)) as Hrun.
    destruct (run (world sys)) as [v w'|e w'|aw w' k]; cbn in Hstep;
      simplify_eq; cbn; apply Forall_insert; try done.
    intros w0. exact Hrun.
  - destruct (tasks sys !! i) as [[run|aw k|r]|] eqn:Hi; simplify_eq.
    pose proof (Forall_lookup_1 _ _ _ _ Ht Hi) as Hk.
    destruct aw; simplify_eq.
    + destruct (get _ _ _) as [o ss]. simplify_eq. cbn.
      apply Forall_insert; [done|]. intros w.
      eapply waits_well_resumed, (Hk w).
    + destruct (offer _ _ _ _) as [o ss]. simplify_eq. cbn.
      apply Forall_insert; [done|]. intros w.
      eapply waits_well_resumed, (Hk w).
    + destruct (release _ _ _) as [o ss]. simplify_eq. cbn.
      apply Forall_insert; [done|]. intros w.
      eapply waits_well_resumed, (Hk w).
  - destruct (tasks sys !! i) as [[run|aw k|r]|] eqn:Hi; simplify_eq.
    pose proof (Forall_lookup_1 _ _ _ _ Ht Hi) as Hk.
    destruct aw; simplify_eq. cbn.
    apply Forall_insert; [done|]. intros w.
    eapply waits_well_resumed, (Hk w).
  - destruct (tasks sys !! i) as [[run|aw k|r]|] eqn:Hi; simplify_eq.
    pose proof (Forall_lookup_1 _ _ _ _ Ht Hi) as Hk.
    destruct aw; simplify_eq.
    destruct (futures (world sys) !! latch) as [[r|]|]; simplify_eq. cbn.
    apply Forall_insert; [done|]. intros w.
    eapply waits_well_resumed, (Hk w).
  - destruct (tasks sys !! i) as [[run|aw k|r]|] eqn:Hi; simplify_eq.
    pose proof (Forall_lookup_1 _ _ _ _ Ht Hi) as Hk. cbn.
    apply Forall_insert; [done|]. intros w.
    eapply waits_well_resumed, (Hk w).
  - destruct (0 <=? dt)%Z; simplify_eq. done.
Qed.

Lemma run_waits acts sys sys' :
  system_sound sys -> Forall task_waits (tasks sys) ->
  run method configuration acts sys = Some sys' ->
  Forall task_waits (tasks sys').
Proof.
  revert sys. induction acts as [|a acts IH]; cbn; intros sys Hs Ht Hrun.
  - by simplify_eq.
  - destruct (step method configuration a sys) as [sys1|] eqn:Hstep; [|done].
    eapply IH; [| |exact Hrun].
    + by eapply step_sound.
    + by eapply step_waits.
Qed.

(** *** Who settles a refresh *)

Local Abbreviation free := (free configuration).
Local Abbreviation holding := (holding configuration).
Local Abbreviation holder := (holder configuration).
Local Abbreviation bystander := (bystander configuration).
Local Abbreviation task_held := (task_held configuration).
Local Abbreviation owned := (owned configuration).
Local Abbreviation settle_step := (settle_step configuration).

Lemma wrapper_free args kwargs w :
  free w ((v ← wrapper method configuration args kwargs; mret (RValue v)) w).
Proof.
  unfold wrapper. destruct (configured configuration); cbn [negb];
    [|repeat split; reflexivity].
  destruct (dict_pop _ _ _) as [flag named].
  py_step. own.
Qed.

Lemma coroutine_free t w : free w (coroutine method t w).
Proof.
  destruct t as [cur key args kwargs cfg|key cfg]; cbn; py_step; own.
Qed.

Lemma same_tracker_refl w : same_tracker w w.
Proof. repeat split. Qed.

Lemma claimed_same key latch w w' :
  same_tracker w w' -> claimed key latch w -> claimed key latch w'.
Proof. intros (Hr & Hf & _) [Hrow Hfut]. split; congruence. Qed.

Lemma owned_same owners sys w' ts' :
  owned owners sys -> same_tracker (world sys) w' ->
  Forall2 task_held owners ts' ->
  owned owners {| world := w'; tasks := ts' |}.
Proof.
  intros [Ht Hrows Hclaims Hapart Hl] Hsame Ht'.
  pose proof Hsame as (Hr & Hf & Hn).
  split; cbn.
  - exact Ht'.
  - intros key latch. rewrite Hr. apply Hrows.
  - intros i key latch Hi. eapply claimed_same; [exact Hsame|]. by eapply Hclaims.
  - exact Hapart.
  - congruence.
Qed.

Lemma task_held_resumed o aw (k : Outcome (answer aw) -> _) out :
  task_held o (Suspended aw k) -> task_held o (Runnable (k out)).
Proof. destruct o as [[key latch]|]; cbn; intros Hk; [intros w; apply Hk|intros w; apply Hk]. Qed.

Lemma owned_resumed owners sys i aw (k : Outcome (answer aw) -> _) out w' :
  owned owners sys -> tasks sys !! i = Some (Suspended aw k) ->
  same_tracker (world sys) w' ->
  owned owners {| world := w'; tasks := <[i := Runnable (k out)]> (tasks sys) |}.
Proof.
  intros Ho Hi Hsame. eapply owned_same; [exact Ho|exact Hsame|].
  destruct (Forall2_lookup_r _ _ _ _ _ (owned_tasks _ _ _ Ho) Hi) as (o & Hoi & Hheld).
  rewrite <- (list_insert_id _ _ _ Hoi).
  apply Forall2_insert; [apply Ho|]. by eapply task_held_resumed.
Qed.

Lemma owned_appended owners sys w' t :
  owned owners sys -> same_tracker (world sys) w' -> bystander t ->
  owned (owners ++ [None]) {| world := w'; tasks := tasks sys ++ [t] |}.
Proof.
  intros Ho Hsame Ht.
  assert (Hold : forall i x, (owners ++ [None]) !! i = Some (Some x) ->
                            owners !! i = Some (Some x)).
  { intros i x Hi. apply lookup_app_Some in Hi as [Hi|[_ Hi]]; [done|].
    apply list_elem_of_lookup_2, list_elem_of_singleton in Hi. done. }
  pose proof Hsame as (Hr & Hf & Hn).
  destruct Ho as [Hts Hrows Hclaims Hapart Hl]. split; cbn.
  - apply Forall2_app; [exact Hts|]. by constructor.
  - intros key latch. rewrite Hr. intros Hrow.
    destruct (Hrows _ _ Hrow) as [i Hi]. exists i. by apply lookup_app_l_Some.
  - intros i key latch Hi. eapply claimed_same; [exact Hsame|].
    eapply Hclaims. by apply Hold.
  - intros i j key latch key' latch' Hi Hj. apply Hapart; by apply Hold.
  - congruence.
Qed.

Lemma owned_claimed_by owners sys i key w' t :
  owned owners sys -> owners !! i = Some None ->
  claims key (world sys) w' ->
  holder key (length (futures (world sys))) t ->
  owned (<[i := Some (key, length (futures (world sys)))]> owners)
    {| world := w'; tasks := <[i := t]> (tasks sys) |}.
Proof.
  intros [Hts Hrows Hclaims Hapart Hl] Hoi (Hidle & Hr & Hf & Hn) Ht.
  assert (Hlen : i < length owners) by (by eapply lookup_lt_Some).
  assert (Hother : forall j k l,
            owners !! j = Some (Some (k, l)) ->
            k <> key /\ l <> length (futures (world sys))
            /\ l < length (futures (world sys))).
  { intros j k l Hj. destruct (Hclaims _ _ _ Hj) as [Hrow Hfut].
    apply lookup_lt_Some in Hfut. split; [congruence|lia]. }
  split; cbn.
  - by apply Forall2_insert.
  - intros k l. rewrite Hr. intros Hrow.
    destruct (decide (k = key)) as [->|Hne].
    + rewrite lookup_insert_eq in Hrow. injection Hrow as <-.
      exists i. by rewrite list_lookup_insert_eq.
    + rewrite lookup_insert_ne in Hrow by done.
      destruct (Hrows _ _ Hrow) as [j Hj]. exists j.
      rewrite list_lookup_insert_ne; [done|]. intros ->. congruence.
  - intros j k l Hj. destruct (decide (j = i)) as [->|Hne].
    + rewrite list_lookup_insert_eq in Hj by done. injection Hj as <- <-.
      split; cbn.
      * rewrite Hr. apply lookup_insert_eq.
      * rewrite Hf, lookup_app_r by done. by rewrite Nat.sub_diag.
    + rewrite list_lookup_insert_ne in Hj by done.
      destruct (Hother _ _ _ Hj) as (Hk & _ & _).
      destruct (Hclaims _ _ _ Hj) as [Hrow Hfut]. split; cbn.
      * rewrite Hr, lookup_insert_ne; done.
      * rewrite Hf. by apply lookup_app_l_Some.
  - intros j1 j2 k l k' l' H1 H2 Hne.
    destruct (decide (j1 = i)) as [->|Hne1];
      destruct (decide (j2 = i)) as [->|Hne2]; [done| | |].
    + rewrite list_lookup_insert_eq in H1 by done. injection H1 as <- <-.
      rewrite list_lookup_insert_ne in H2 by done.
      destruct (Hother _ _ _ H2) as (Hk & Hl' & _). split; congruence.
    + rewrite list_lookup_insert_eq in H2 by done. injection H2 as <- <-.
      rewrite list_lookup_insert_ne in H1 by done.
      destruct (Hother _ _ _ H1) as (Hk & Hl' & _). split; congruence.
    + rewrite list_lookup_insert_ne in H1, H2 by done. by eapply Hapart.
  - rewrite Hn, Hf, length_app, Hl. cbn. lia.
Qed.

Lemma owned_settled_by owners sys i key latch result w' t :
  owned owners sys -> owners !! i = Some (Some (key, latch)) ->
  settles key latch result (world sys) w' -> bystander t ->
  owned (<[i := None]> owners)
    {| world := w'; tasks := <[i := t]> (tasks sys) |}.
Proof.
  intros [Hts Hrows Hclaims Hapart Hl] Hoi (Hr & Hf & Hn) Ht.
  assert (Hlen : i < length owners) by (by eapply lookup_lt_Some).
  assert (Hold : forall j x, <[i := None]> owners !! j = Some (Some x) ->
                            j <> i /\ owners !! j = Some (Some x)).
  { intros j x Hj. destruct (decide (j = i)) as [->|Hne].
    - by rewrite list_lookup_insert_eq in Hj.
    - by rewrite list_lookup_insert_ne in Hj. }
  split; cbn.
  - by apply Forall2_insert.
  - intros k l. rewrite Hr. intros Hrow.
    apply lookup_delete_Some in Hrow as [Hne Hrow].
    destruct (Hrows _ _ Hrow) as [j Hj]. exists j.
    rewrite list_lookup_insert_ne; [done|]. intros ->. congruence.
  - intros j k l Hj. apply Hold in Hj as [Hne Hj].
    destruct (Hapart _ _ _ _ _ _ Hj Hoi Hne) as [Hk Hl'].
    destruct (Hclaims _ _ _ Hj) as [Hrow Hfut]. split; cbn.
    + rewrite Hr, lookup_delete_ne; done.
    + rewrite Hf, list_lookup_insert_ne; done.
  - intros j1 j2 k l k' l' H1 H2.
    apply Hold in H1 as [_ H1]. apply Hold in H2 as [_ H2]. by eapply Hapart.
  - by rewrite Hn, Hf, length_insert.
Qed.

Lemma owned_kept owners sys i o w' t :
  owned owners sys -> owners !! i = Some o ->
  same_tracker (world sys) w' -> task_held o t ->
  owned owners {| world := w'; tasks := <[i := t]> (tasks sys) |}.
Proof.
  intros Ho Hoi Hsame Ht. eapply owned_same; [exact Ho|exact Hsame|].
  rewrite <- (list_insert_id _ _ _ Hoi). apply Forall2_insert; [apply Ho|done].
Qed.

Lemma step_owned owners a sys sys' :
  owned owners sys -> step method configuration a sys = Some sys' ->
  exists owners',
    owned owners' sys'
    /\ (quiet_step sys sys'
        \/ (exists i key, a = Run i /\ claim_step i key sys sys')
        \/ (exists i key latch,
              a = Run i /\ settle_step i key latch sys sys')).
Proof.
  intros Ho Hstep. destruct a; cbn in Hstep.
  - simplify_eq. exists (owners ++ [None]). split; [|left; apply same_tracker_refl].
    apply owned_appended; [done|apply same_tracker_refl|].
    intros w. apply wrapper_free.
  - destruct (ready (world sys)) as [|t q] eqn:Hq; simplify_eq.
    exists (owners ++ [None]). split; [|left; repeat split].
    apply owned_appended; [done|repeat split|].
    intros w. apply coroutine_free.
  - destruct (tasks sys !! i) as [[run|aw k|r]|] eqn:Hi; simplify_eq.
    destruct (Forall2_lookup_r _ _ _ _ _ (owned_tasks _ _ _ Ho) Hi)
      as (o & Hoi & Hheld).
    assert (Hlen : i < length (tasks sys)) by (by eapply lookup_lt_Some).
    destruct o as [[key latch]|]; cbn in Hheld.
    + pose proof (owned_claims _ _ _ Ho _ _ _ Hoi) as Hc.
      specialize (Hheld _ Hc).
      destruct (run (world sys)) as [r w1|e w1|aw w1 k]; cbn in Hheld, Hstep;
        simplify_eq.
      * destruct Hheld as (result & Hsettles & Hagrees).
        exists (<[i := None]> owners). split.
        { by eapply owned_settled_by. }
        right; right. exists i, key, latch. split; [done|]. split; [done|].
        exists result, (Returned r). cbn.
        by rewrite list_lookup_insert_eq.
      * destruct Hheld as (result & Hsettles & Hagrees).
        exists (<[i := None]> owners). split.
        { by eapply owned_settled_by. }
        right; right. exists i, key, latch. split; [done|]. split; [done|].
        exists result, (Raised e). cbn.
        by rewrite list_lookup_insert_eq.
      * destruct Hheld as (Hsame & Hk).
        exists owners. split; [|by left].
        eapply owned_kept; [done|exact Hoi|exact Hsame|exact Hk].
    + specialize (Hheld (world sys)).
      destruct (run (world sys)) as [r w1|e w1|aw w1 k]; cbn in Hheld, Hstep;
        simplify_eq.
      * exists owners. split; [|by left].
        by eapply owned_kept.
      * exists owners. split; [|by left].
        by eapply owned_kept.
      * destruct Hheld as [[Hsame Hk]|(key & Hclaims & (vf & -> & Hid) & Hk)].
        { exists owners. split; [|by left].
          eapply owned_kept; [done|exact Hoi|exact Hsame|exact Hk]. }
        exists (<[i := Some (key, length (futures (world sys)))]> owners).
        split.
        { eapply owned_claimed_by; [done|exact Hoi|exact Hclaims|exact Hk]. }
        right; left. exists i, key. split; [done|]. split; [done|].
        exists vf, k. cbn. by rewrite list_lookup_insert_eq.
  - destruct (tasks sys !! i) as [[run|aw k|r]|] eqn:Hi; simplify_eq.
    destruct aw; simplify_eq.
    + destruct (get _ _ _) as [o ss]. simplify_eq. eexists. split; [|left; repeat split].
      eapply owned_resumed; [done|exact Hi|repeat split].
    + destruct (offer _ _ _ _) as [o ss]. simplify_eq. eexists. split; [|left; repeat split].
      eapply owned_resumed; [done|exact Hi|repeat split].
    + destruct (release _ _ _) as [o ss]. simplify_eq. eexists. split; [|left; repeat split].
      eapply owned_resumed; [done|exact Hi|repeat split].
  - destruct (tasks sys !! i) as [[run|aw k|r]|] eqn:Hi; simplify_eq.
    destruct aw; simplify_eq. eexists. split; [|left; repeat split].
    eapply owned_resumed; [done|exact Hi|repeat split].
  - destruct (tasks sys !! i) as [[run|aw k|r]|] eqn:Hi; simplify_eq.
    destruct aw; simplify_eq.
    destruct (futures (world sys) !! latch) as [[r|]|]; simplify_eq.
    eexists. split; [|left; repeat split].
    eapply owned_resumed; [done|exact Hi|repeat split].
  - destruct (tasks sys !! i) as [[run|aw k|r]|] eqn:Hi; simplify_eq.
    eexists. split; [|left; repeat split].
    eapply owned_resumed; [done|exact Hi|repeat split].
  - destruct (0 <=? dt)%Z; simplify_eq. exists owners. split; [|left; repeat split].
    eapply owned_same; [done|repeat split|apply Ho].
Qed.

Lemma initial_owned t0 ss es :
  owned [] (initial t0 ss es).
Proof.
  split; cbn.
  - constructor.
  - intros key latch. by rewrite lookup_empty.
  - intros i key latch. by rewrite lookup_nil.
  - intros i j key latch key' latch'. by rewrite lookup_nil.
  - reflexivity.
Qed.

Lemma run_owned acts owners sys sys' :
  owned owners sys ->
  run method configuration acts sys = Some sys' ->
  exists owners', owned owners' sys'.
Proof.
  revert owners sys. induction acts as [|a acts IH]; cbn; intros owners sys Ho Hrun.
  - simplify_eq. by exists owners.
  - destruct (step method configuration a sys) as [sys1|] eqn:Hstep; [|done].
    destruct (step_owned _ _ _ _ Ho Hstep) as (owners1 & Ho1 & _).
    by eapply IH.
Qed.

(** C2, as the code has it.  On every schedule of the event loop, started
    from an idle tracker:

    - the tracker and the history agree for every key: the key has a row
      exactly while a refresh of it is in flight, and the user callable was
      never called for the key, nor the key claimed, while a refresh of it
      was in flight; so at most one refresh per key is in flight at any time;
    - as many user works have been started as keys claimed;
    - every refresh in flight has its latch pending and a live task that
      holds it: resumed with whatever outcome, that task leaves the tracker
      alone until it settles this very refresh, and it ends there;
    - every task found waiting on a latch returns the post-processed value
      of the entry the latch delivers, or raises
      [CachedMethodFailedException] from the failure it delivers;
    - a resolved latch keeps its result, and every step of the loop either
      leaves the tracker alone, or is the run of a task that claims an idle
      key, starts one user work in the same move and waits for that work,
      or is the run of the task that settles its refresh and ends with an
      outcome that agrees with what it put on the latch.

    So the callers that meet on one refresh, the one that started it and
    those waiting on its latch, see one call of the user callable and get
    the same value, or [CachedMethodFailedException] from the same cause. *)
Theorem single_flight acts t0 ss es sys :
  run method configuration acts (initial t0 ss es) = Some sys ->
  (forall key,
     flight key (trace (world sys)) =
     match updates_in_progress (world sys) !! key with
     | Some _ => InFlight
     | None => Idle
     end)
  /\ launched (world sys) = length (futures (world sys))
  /\ (forall key latch,
        updates_in_progress (world sys) !! key = Some latch ->
        futures (world sys) !! latch = Some None
        /\ exists i t, tasks sys !! i = Some t /\ holder key latch t)
  /\ (forall i latch k,
        tasks sys !! i = Some (Suspended (AwLatch latch) k) -> waiter_ok k)
  /\ (forall a sys',
        step method configuration a sys = Some sys' ->
        (forall latch result,
           futures (world sys) !! latch = Some (Some result) ->
           futures (world sys') !! latch = Some (Some result))
        /\ (quiet_step sys sys'
            \/ (exists i key, a = Run i /\ claim_step i key sys sys')
            \/ (exists i key latch,
                  a = Run i /\ settle_step i key latch sys sys'))).
Proof.
  intros Hrun.
  assert (Hinit : system_sound (initial t0 ss es)).
  { split; [split|]; [|constructor|constructor].
    intros key. unfold initial. cbn [world trace updates_in_progress].
    by rewrite lookup_empty. }
  destruct (run_owned _ _ _ _ (initial_owned t0 ss es) Hrun) as [owners Ho].
  split; [|split; [|split; [|split]]].
  - eapply run_sound in Hrun as [[Hs _] _]; [exact Hs|exact Hinit].
  - apply Ho.
  - intros key latch Hrow.
    destruct (owned_rows _ _ _ Ho _ _ Hrow) as [i Hi].
    split; [apply (owned_claims _ _ _ Ho _ _ _ Hi)|].
    destruct (Forall2_lookup_l _ _ _ _ _ (owned_tasks _ _ _ Ho) Hi)
      as (t & Hti & Hheld).
    by exists i, t.
  - intros i latch k Hi.
    eapply run_waits in Hrun; [|exact Hinit|constructor].
    pose proof (Forall_lookup_1 _ _ _ _ Hrun Hi (world sys)) as Hw.
    exact (proj2 Hw).
  - intros a sys' Hstep.
    destruct (step_owned _ _ _ _ Ho Hstep) as (owners' & _ & Heffect).
    split; [|exact Heffect].
    intros latch result Hres.
    destruct Heffect
      as [(_ & Hf & _)
         |[(i & key & _ & (_ & _ & Hf & _) & _)
          |(i & key & l & _ & [_ Hpending] & res & r & (_ & Hf & _) & _)]];
      rewrite Hf.
    + exact Hres.
    + by apply lookup_app_l_Some.
    + rewrite list_lookup_insert_ne; [exact Hres|]. intros ->. congruence.
Qed.

End SingleFlight.

(** ** A configuration that is not ready *)

Section Unready.

Context {SS ES : Type}.
Variable method : Method.
Variable configuration : @CacheConfiguration SS ES.
Hypothesis unready : configured configuration = false.

Lemma step_refused a sys sys' :
  ready (world sys) = [] ->
  Forall refused (tasks sys) ->
  step method configuration a sys = Some sys' ->
  with_clock 0 (world sys') = with_clock 0 (world sys)
  /\ Forall refused (tasks sys').
Proof.
  intros Hq Ht Hstep. destruct a; cbn in Hstep.
  - simplify_eq. split; [done|]. cbn. apply Forall_app. split; [done|].
    apply Forall_singleton. cbn. intros w.
    unfold wrapper. rewrite unready. reflexivity.
  - rewrite Hq in Hstep. done.
  - destruct (tasks sys !! i) as [[run|aw k|r]|] eqn:Hi; simplify_eq.
    pose proof (Forall_lookup_1 _ _ _ _ Ht Hi) as Hrun. cbn in Hrun.
    rewrite Hrun in Hstep. cbn in Hstep. simplify_eq. split; [done|].
    cbn. apply Forall_insert; [done|]. reflexivity.
  - destruct (tasks sys !! i) as [[run|aw k|r]|] eqn:Hi; simplify_eq.
    by pose proof (Forall_lookup_1 _ _ _ _ Ht Hi).
  - destruct (tasks sys !! i) as [[run|aw k|r]|] eqn:Hi; simplify_eq.
    by pose proof (Forall_lookup_1 _ _ _ _ Ht Hi).
  - destruct (tasks sys !! i) as [[run|aw k|r]|] eqn:Hi; simplify_eq.
    by pose proof (Forall_lookup_1 _ _ _ _ Ht Hi).
  - destruct (tasks sys !! i) as [[run|aw k|r]|] eqn:Hi; simplify_eq.
    by pose proof (Forall_lookup_1 _ _ _ _ Ht Hi).
  - destruct (0 <=? dt)%Z; simplify_eq. split; [reflexivity|done].
Qed.

Lemma run_refused acts sys sys' :
  ready (world sys) = [] ->
  Forall refused (tasks sys) ->
  run method configuration acts sys = Some sys' ->
  with_clock 0 (world sys') = with_clock 0 (world sys)
  /\ Forall refused (tasks sys').
Proof.
  revert sys. induction acts as [|a acts IH]; cbn; intros sys Hq Ht Hrun.
  - by simplify_eq.
  - destruct (step method configuration a sys) as [sys1|] eqn:Hstep; [|done].
    destruct (step_refused _ _ _ Hq Ht Hstep) as [Hw1 Ht1].
    assert (Hq1 : ready (world sys1) = []).
    { change (ready (with_clock 0 (world sys1)) = []). by rewrite Hw1. }
    destruct (IH _ Hq1 Ht1 Hrun) as [Hw' Ht']. split; [congruence|done].
Qed.

(** X1. While the configuration is not ready the memoized callable does
    nothing, on any schedule: every call that has run ended with
    [NotConfiguredCacheCalledException], no call is ever suspended, and
    nothing was logged, read from or written to the storage, told to the
    eviction strategy, claimed in the tracker, queued on the loop or asked of
    the user callable. *)
Theorem unready_configuration_refuses acts t0 ss es sys :
  run method configuration acts (initial t0 ss es) = Some sys ->
  Forall refused (tasks sys)
  /\ trace (world sys) = []
  /\ storage_state (world sys) = ss
  /\ eviction_state (world sys) = es
  /\ updates_in_progress (world sys) = ∅
  /\ launched (world sys) = 0
  /\ ready (world sys) = [].
Proof.
  intros Hrun.
  destruct (run_refused acts (initial t0 ss es) sys eq_refl (Forall_nil_2 _) Hrun)
    as [Hw Ht].
  split; [exact Ht|].
  repeat split.
  - change (trace (with_clock 0 (world sys)) = []). by rewrite Hw.
  - change (storage_state (with_clock 0 (world sys)) = ss). by rewrite Hw.
  - change (eviction_state (with_clock 0 (world sys)) = es). by rewrite Hw.
  - change (updates_in_progress (with_clock 0 (world sys)) = ∅). by rewrite Hw.
  - change (launched (with_clock 0 (world sys)) = 0). by rewrite Hw.
  - change (ready (with_clock 0 (world sys)) = []). by rewrite Hw.
Qed.

End Unready.

(** ** Calls that meet a refresh, and calls whose refresh fails *)

Lemma dict_pop_inserted name default (l1 l2 : list (string * PyVal)) v :
  name ∉ l1.*1 ->
  dict_pop name default (l1 ++ (name, v) :: l2) = (v, l1 ++ l2).
Proof.
  induction l1 as [|[n v'] rest IH]; cbn; intros Hnot.
  - by rewrite String.eqb_refl.
  - apply not_elem_of_cons in Hnot as [Hne Hrest].
    destruct (String.eqb n name) eqn:Heq.
    + apply String.eqb_eq in Heq. congruence.
    + by rewrite IH.
Qed.

Section FacadeEdges.

Context {SS ES : Type}.
Implicit Types (w : @World SS ES).

Variable method : Method.
Variable configuration : @CacheConfiguration SS ES.
Variable args : list PyVal.
Variable kwargs : list (string * PyVal).

Let popped := dict_pop "force_refresh_memoized" (PyBool false) kwargs.
Let force_refresh := popped.1.
Let named := popped.2.
Let key := format_key (key_extractor configuration) method args named.
Let post (v : PyVal) : PyVal := apply (postprocessing configuration) v.

(** Opens a call of a ready wrapper; the hypotheses that mention the key are
    introduced after it. *)
Ltac open_wrapper Hready :=
  unfold wrapper; rewrite Hready; cbn [negb];
  subst key post force_refresh named popped;
  destruct (dict_pop _ _ _) as [flag rest]; cbn [fst snd].

(** Resumes the call after [storage.get] and runs it up to [refresh]. *)
Ltac dispatch :=
  unfold send_entry, send_value, send_done, send_result, throw, await,
    eviction_call, datetime_now, deliver, logger_debug, mbind, M_bind;
  cbn.

Ltac feed :=
  repeat (match goal with
          | H : ?x = _ |- context [?x] => rewrite H
          end; cbn).

(** X2. When the storage holds an entry and [mark_read] raises, the call
    ends with that very exception: it sits outside every [try], so it is not
    wrapped, nothing is logged, no refresh is started and the entry that was
    read is not returned. *)
Theorem wrapper_read_notification_failure w entry w' e es :
  configured configuration = true ->
  mark_read (eviction_strategy configuration) key (eviction_state w') =
    (Raised e, es) ->
  send_entry (wrapper method configuration args kwargs w) (Some entry) w' =
  Raise e (with_eviction_state es (record (EvMarkRead key) w')).
Proof.
  intros Hready. open_wrapper Hready. intros Hread.
  dispatch. rewrite Hread. reflexivity.
Qed.

(** X3. A forced call that arrives while a refresh of its key is in flight
    forces nothing: it neither waits nor calls the user callable, and returns
    the post-processed value of the entry it read, two debug lines later. *)
Theorem forced_call_during_refresh w entry w' es latch :
  configured configuration = true ->
  truthy force_refresh = true ->
  mark_read (eviction_strategy configuration) key (eviction_state w') =
    (Returned tt, es) ->
  updates_in_progress w' !! key = Some latch ->
  send_entry (wrapper method configuration args kwargs w) (Some entry) w' =
  Ret (post (value entry))
    (record (EvLog DEBUG
       "As update point reached but concurrent update already in progress, relying on concurrent refresh to finish %s")
       (record (EvLog DEBUG "Forced entry update (blocking) for key %s")
          (with_eviction_state es (record (EvMarkRead key) w')))).
Proof.
  intros Hready. open_wrapper Hready. intros Hflag Hread Hrow.
  dispatch. feed. py_step. feed. reflexivity.
Qed.

(** X4. A call that finds no entry, or an expired one it was not told to
    force, while a refresh of its key is in flight waits on the latch of that
    refresh.  It then returns the post-processed value of the entry the
    latch delivers, or raises [CachedMethodFailedException] "Concurrent
    refresh failed to complete" from the failure it delivers; an expired
    entry plays no part in either. *)
Theorem waiting_call_during_refresh w current w' latch :
  configured configuration = true ->
  updates_in_progress w' !! key = Some latch ->
  (current = None \/
   exists entry es,
     current = Some entry
     /\ mark_read (eviction_strategy configuration) key (eviction_state w') =
          (Returned tt, es)
     /\ truthy force_refresh = false
     /\ (expires_after entry <= clock w')%Z) ->
  let waiting :=
    send_entry (wrapper method configuration args kwargs w) current w' in
  awaiting waiting = Some (AwLatch latch)
  /\ (forall delivered w'',
        send_result waiting (inl delivered) w'' =
        Ret (post (value delivered)) w'')
  /\ (forall e w'',
        send_result waiting (inr e) w'' =
        Raise (Exc (CachedMethodFailedException
                      "Concurrent refresh failed to complete" e)) w'').
Proof.
  intros Hready. open_wrapper Hready.
  intros Hrow [->|(entry & es & -> & Hread & Hflag & Hexp)].
  - dispatch. py_step. feed. repeat split; reflexivity.
  - apply Z.leb_le in Hexp. dispatch. feed. py_step. feed.
    repeat split; reflexivity.
Qed.

(** X5. A call that finds no entry and no refresh in flight, and whose user
    callable starts.  It waits for the user work under the configured method
    time-out, then for the offer of the entry built from the value at the
    time the value arrived, and returns the post-processed value of that
    entry, whatever the eviction strategy does afterwards; the latch it
    created holds the entry. *)
Theorem wrapper_cold_miss w w1 v w2 w3 :
  configured configuration = true ->
  method_call method args named = None ->
  updates_in_progress w1 !! key = None ->
  claimed key (length (futures w1)) w2 ->
  claimed key (length (futures w1)) w3 ->
  let working :=
    send_entry (wrapper method configuration args kwargs w) None w1 in
  let offering := send_value working v w2 in
  let offered_entry := build (entry_builder configuration) key v (clock w2) in
  let returning := send_done offering w3 in
  awaiting working =
    Some (AwValueFuture
            {| work_id := launched w1;
               wait_for_timeout := method_timeout configuration |})
  /\ awaiting offering =
       Some (AwStorageOffer (storage configuration) key offered_entry)
  /\ returning = Ret (post (value offered_entry)) (world_of returning)
  /\ futures (world_of returning) !! length (futures w1) =
       Some (Some (inl offered_entry)).
Proof.
  intros Hready. open_wrapper Hready.
  intros Hcall Hidle [Hrow2 Hfut2] [Hrow3 Hfut3].
  dispatch. py_step. feed. split; [reflexivity|]. split; [reflexivity|].
  destruct (mark_written _ _ _ _) as [[[]|[e|]] es1]; cbn;
    [destruct (next_to_release _ _) as [[[victim|]|[e|]] es2]; cbn| |].
  all: rewrite ?lookup_delete_eq; cbn;
    rewrite ?list_lookup_insert_eq by (eapply lookup_lt_Some; exact Hfut3);
    cbn.
  all: split; [reflexivity|].
  all: apply list_lookup_insert_eq; eapply lookup_lt_Some; exact Hfut3.
Qed.

(** X6. There is no falling back on the entry in hand.  When a call
    refreshes an entry it read (forced, or expired) and the user work ends
    with an exception, the call raises [CachedMethodFailedException] from it
    ("Refresh timed out" for a time-out, "Refresh failed to complete"
    otherwise) although the storage still holds the entry; the storage is
    not touched and the latch holds the failure. *)
Theorem wrapper_refresh_failure_no_fallback w entry w1 es e w2 :
  configured configuration = true ->
  method_call method args named = None ->
  mark_read (eviction_strategy configuration) key (eviction_state w1) =
    (Returned tt, es) ->
  truthy force_refresh = true \/ (expires_after entry <= clock w1)%Z ->
  updates_in_progress w1 !! key = None ->
  claimed key (length (futures w1)) w2 ->
  let working :=
    send_entry (wrapper method configuration args kwargs w) (Some entry) w1 in
  let failing := throw working (Exc e) w2 in
  awaiting working =
    Some (AwValueFuture
            {| work_id := launched w1;
               wait_for_timeout := method_timeout configuration |})
  /\ failing =
       Raise (Exc (CachedMethodFailedException
                     (match e with
                      | TimeoutError => "Refresh timed out"
                      | _ => "Refresh failed to complete"
                      end) e)) (world_of failing)
  /\ storage_state (world_of failing) = storage_state w2
  /\ futures (world_of failing) !! length (futures w1) = Some (Some (inr e)).
Proof.
  intros Hready. open_wrapper Hready.
  intros Hcall Hread Hbranch Hidle [Hrow2 Hfut2].
  assert (Hdispatch :
    truthy flag = true \/
    (truthy flag = false /\ (expires_after entry <=? clock w1)%Z = true)).
  { destruct (truthy flag); [by left|right]. split; [done|].
    destruct Hbranch as [?|Hexp]; [done|]. by apply Z.leb_le. }
  destruct Hdispatch as [Hflag|[Hflag Hexp]].
  - dispatch. feed. py_step. feed. split; [reflexivity|].
    destruct e; cbn; feed;
      rewrite ?lookup_delete_eq; cbn;
      rewrite ?list_lookup_insert_eq by (eapply lookup_lt_Some; exact Hfut2);
      cbn; repeat split;
      try reflexivity;
      apply list_lookup_insert_eq; eapply lookup_lt_Some; exact Hfut2.
  - dispatch. feed. py_step. feed. split; [reflexivity|].
    destruct e; cbn; feed;
      rewrite ?lookup_delete_eq; cbn;
      rewrite ?list_lookup_insert_eq by (eapply lookup_lt_Some; exact Hfut2);
      cbn; repeat split;
      try reflexivity;
      apply list_lookup_insert_eq; eapply lookup_lt_Some; exact Hfut2.
Qed.

(** X7. Whatever a call is resumed with, all it ever waits for is a lookup
    or an offer on the configured storage under its own key, user work under
    the configured method time-out, or a latch.  It never waits for a
    release, and never touches the storage under another key. *)
Theorem wrapper_awaits_own_key w :
  awaits_all (of_call configuration key)
    (wrapper method configuration args kwargs w).
Proof.
  unfold wrapper. destruct (configured configuration); cbn [negb]; [|exact I].
  subst key post force_refresh named popped.
  destruct (dict_pop _ _ _) as [flag rest]. cbn [fst snd].
  py_step. crunch_all. all: reflexivity.
Qed.

End FacadeEdges.

Section FlagEdges.

Context {SS ES : Type}.
Implicit Types (w : @World SS ES).

Variable method : Method.
Variable configuration : @CacheConfiguration SS ES.
Variable args : list PyVal.

(** X8. The reserved flag does not change what a call is about.  With
    [force_refresh_memoized] among the named arguments, wherever it stands
    and whatever its value, the call looks up the same key as without it, and
    on a miss goes on in the same way; with a false value the whole call is
    the call without the flag. *)
Theorem unset_flag_is_no_flag (before after : list (string * PyVal)) v w :
  "force_refresh_memoized" ∉ before.*1 ->
  "force_refresh_memoized" ∉ after.*1 ->
  let flagged :=
    wrapper method configuration args
      (before ++ ("force_refresh_memoized", v) :: after) w in
  let plain := wrapper method configuration args (before ++ after) w in
  awaiting flagged = awaiting plain
  /\ (forall w', send_entry flagged None w' = send_entry plain None w')
  /\ (truthy v = false -> flagged = plain).
Proof.
  intros Hb Ha flagged plain. subst flagged plain.
  unfold wrapper.
  rewrite dict_pop_inserted by exact Hb.
  rewrite dict_pop_absent
    by (rewrite fmap_app; intros [?|?]%elem_of_app; done).
  destruct (configured configuration); cbn [negb]; [|done].
  split; [reflexivity|]. split; [reflexivity|].
  intros Hv. rewrite Hv. reflexivity.
Qed.

End FlagEdges.

(** ** What runs in the background *)

Section Background.

Context {SS ES : Type}.
Implicit Types (w : @World SS ES) (cfg : @CacheConfiguration SS ES).

Variable method : Method.

(** X9. A refresh handed to the loop with an entry in hand never waits for
    another refresh and never reads the storage: all it waits for is the
    user work under the configured time-out and the offer of its own key.
    A release handed to the loop waits for nothing but the release of its
    key. *)
Theorem background_awaits w :
  (forall entry key args kwargs cfg,
     awaits_all (of_background cfg key)
       (coroutine method (SpawnRefresh (Some entry) key args kwargs cfg) w))
  /\ (forall key cfg,
        awaits_all (fun aw => aw = AwStorageRelease (storage cfg) key)
          (coroutine method (SpawnTryRelease key cfg) w)).
Proof.
  split.
  - intros entry key args kwargs cfg. cbn. py_step. crunch_all.
    all: reflexivity.
  - intros key cfg. cbn. py_step. crunch_all. all: reflexivity.
Qed.

Variable configuration : @CacheConfiguration SS ES.

(** X10. On every schedule, every refresh waiting on the loop's queue has
    an entry in hand and is filed under the key the key extractor gives the
    call it will make of the user callable. *)
Theorem queued_refreshes_hold_entries acts t0 ss es sys :
  run method configuration acts (initial t0 ss es) = Some sys ->
  forall actual_entry key args kwargs cfg,
    SpawnRefresh actual_entry key args kwargs cfg ∈ ready (world sys) ->
    is_Some actual_entry
    /\ key = format_key (key_extractor configuration) method args kwargs.
Proof.
  intros Hrun actual_entry key args kwargs cfg Hin.
  assert (Hinit : system_sound method configuration (initial t0 ss es)).
  { split; [split|]; [|constructor|constructor].
    intros k. unfold initial. cbn [world trace updates_in_progress].
    by rewrite lookup_empty. }
  eapply run_sound in Hrun as [[_ Hq] _]; [|exact Hinit].
  rewrite Forall_forall in Hq. destruct (Hq _ Hin) as [-> Hsome].
  split; [exact Hsome|reflexivity].
Qed.

End Background.

Section ClaimedEdges.

Context {SS ES : Type}.
Implicit Types (w : @World SS ES).

Variable actual_entry : option CacheEntry.
Variable key : string.
Variable provider : @M SS ES ValueFuture.
Variable cfg : @CacheConfiguration SS ES.
Variables (w w1 : @World SS ES) (value_future : ValueFuture).

Hypothesis idle : updates_in_progress w !! key = None.
Hypothesis started : provider w = Ret value_future w1.
Hypothesis still_idle : updates_in_progress w1 !! key = None.

Let latch := length (futures w1).
Let working := refresh actual_entry key provider cfg w.

(** X11. A [TimeoutError] raised by [storage.offer] is taken for a time-out
    of the user work: the refresh aborts with the time-out as cause and
    raises "Refresh timed out", exactly as if the work had timed out. *)
Theorem refresh_offer_timeout v w' w'' :
  claimed key latch w'' ->
  let offering := send_value working v w' in
  throw offering (Exc TimeoutError) w'' =
    Raise (Exc (CachedMethodFailedException "Refresh timed out" TimeoutError))
      (aborted key latch TimeoutError
         (record (EvLog DEBUG "Timeout for %s: %s") w''))
  /\ throw offering (Exc TimeoutError) w'' =
     throw working (Exc TimeoutError) w''.
Proof.
  intros [Hrow Hfut] offering. subst offering working.
  split; enter; resolved Hrow Hfut; reflexivity.
Qed.

End ClaimedEdges.

Section ReleaseEdges.

Context {SS ES : Type}.
Implicit Types (w : @World SS ES) (cfg : @CacheConfiguration SS ES).

(** X12. Cancellation is not an [Exception]: a release cancelled while it
    waits for the storage ends with [CancelledError], with nothing logged and
    the eviction strategy not told; and a [CancelledError] out of
    [mark_released] passes through as well. *)
Theorem try_release_cancelled key cfg w :
  updates_in_progress w !! key = None ->
  let releasing := try_release key cfg w in
  (forall w', throw releasing CancelledError w' = Raise CancelledError w')
  /\ (forall w' es,
        mark_released (eviction_strategy cfg) key (eviction_state w') =
          (Raised CancelledError, es) ->
        send_done releasing w' =
        Raise CancelledError
          (with_eviction_state es (record (EvMarkReleased key) w'))).
Proof.
  intros Hrow releasing. subst releasing.
  py_step. rewrite Hrow. cbn. split; [reflexivity|].
  intros w' es Hev. rewrite Hev. reflexivity.
Qed.

End ReleaseEdges.

(** ** The decorator *)

Section DecoratingEdges.

Context {SS ES : Type}.
Variable default_configuration : @CacheConfiguration SS ES.
Implicit Types (handles : gmap nat (@Binding SS)).

(** X13. An invalidation handle is bound once.  Decorating a method with a
    configuration and an unbound handle binds the handle to the storage and
    key extractor of that configuration and to that method, and to no other
    handle; decorating another method with the same handle leaves the binding
    as it is; and decorating without a configuration binds nothing. *)
Theorem memoize_binds_once method configuration other_method other_configuration
    handle handles :
  handles !! handle = None ->
  let first :=
    memoize default_configuration (Some method) (Some configuration)
      (Some handle) handles in
  let second :=
    memoize default_configuration (Some other_method) other_configuration
      (Some handle) first.2 in
  first.2 !! handle =
    Some {| bound_storage := storage configuration;
            bound_key_extractor := key_extractor configuration;
            bound_method := method |}
  /\ (forall other, other <> handle -> first.2 !! other = handles !! other)
  /\ second.2 = first.2
  /\ (memoize default_configuration (Some method) None (Some handle) handles).2
     = handles.
Proof.
  intros Hfree first second. subst first second. cbn. rewrite Hfree. cbn.
  split; [apply lookup_insert_eq|].
  split; [intros other Hne; by apply lookup_insert_ne|].
  split; [|reflexivity].
  destruct other_configuration; [|reflexivity].
  by rewrite lookup_insert_eq.
Qed.

(** X14. The default configuration is filled in only on the way through the
    decorator factory.  [memoize(...)(method)] is [memoize(method, ...)] with
    the configuration given or the default one, so a call of
    [memoize()(method)] is a call of the wrapper under the default
    configuration; [memoize(method)] keeps no configuration at all, and every
    call of what it returns ends in an [AttributeError]. *)
Theorem memoize_without_configuration method invalidation handles args kwargs :
  (forall configuration,
     decorate default_configuration
       (memoize default_configuration None configuration invalidation handles).1
       method handles =
     Some (memoize default_configuration (Some method)
             (Some (default default_configuration configuration))
             invalidation handles))
  /\ (decorate default_configuration
        (memoize default_configuration None None invalidation handles).1
        method handles ≫= fun decorated => call_memoized decorated.1 args kwargs)
     = Some (wrapper method default_configuration args kwargs)
  /\ call_memoized
       (memoize default_configuration (Some method) None invalidation handles).1
       args kwargs
     = Some (raise (Exc (OtherException "AttributeError"))).
Proof.
  split; [by intros []|]. split; reflexivity.
Qed.

End DecoratingEdges.

(** ** Sample runs *)

(** Two callers that meet on the latch: one call of the user callable, one
    value for both. *)
Example rendezvous_calls_once :
  let final :=
    run sample_method sample_ready rendezvous_schedule (initial 0 ∅ []) in
  (fun sys => invocations (trace (world sys))) <$> final = Some 1
  /\ tasks <$> final =
       Some [Finished (Returned (RValue (PyStr "X")));
             Finished (Returned (RValue (PyStr "X")))].
Proof. split; vm_compute; reflexivity. Qed.

(** A failing eviction strategy costs the caller nothing. *)
Example eviction_failure_is_swallowed :
  let final :=
    run sample_method (sample_configuration dict_storage failing_eviction)
      cold_miss_schedule (initial 0 ∅ []) in
  tasks <$> final = Some [Finished (Returned (RValue (PyStr "X")))]
  /\ (fun sys => last (trace (world sys))) <$> final =
       Some (Some (EvLog ERROR
                     "ignoring failure during eviction after successful refresh")).
Proof. split; vm_compute; reflexivity. Qed.

(** An eviction strategy with no room nominates the key just written; the
    release runs as a task of its own and empties the storage. *)
Example nominated_key_is_released :
  let final :=
    run sample_method (sample_configuration dict_storage (fifo_eviction 0))
      eviction_schedule (initial 0 ∅ []) in
  tasks <$> final =
    Some [Finished (Returned (RValue (PyStr "X")));
          Finished (Returned (RBool true))]
  /\ (fun sys => storage_state (world sys)) <$> final = Some ∅.
Proof. split; vm_compute; reflexivity. Qed.

(** ** The claims the code does not bear out *)

(** C2, as stated, fails.  Two callers of one key start on an empty cache
    and both read "no entry".  The first refreshes and finishes before the
    second is resumed; the second then finds no refresh in flight and calls
    the user callable again: two calls, two different values. *)
Lemma stale_read_calls_twice :
  let final :=
    run sample_method sample_ready stale_read_schedule (initial 0 ∅ []) in
  (fun sys => invocations (trace (world sys))) <$> final = Some 2
  /\ tasks <$> final =
       Some [Finished (Returned (RValue (PyStr "X")));
             Finished (Returned (RValue (PyStr "Y")))].
Proof. split; vm_compute; reflexivity. Qed.

(** C4, as stated, fails.  A release of the key passed its guard while the
    key was idle and waits for the storage.  A refresh of the key then claims
    it and has its offer carried out; the release is carried out next; only
    then is the refresh resumed.  It resolves the latch, and the waiter the
    latch releases gets the new value while the storage holds no entry for
    the key. *)
Lemma release_between_offer_and_latch :
  let offered :=
    run sample_method sample_tight offered_schedule (initial 0 ∅ []) in
  let final :=
    run sample_method sample_tight release_between_schedule (initial 0 ∅ []) in
  let delivered :=
    {| created := 30; update_after := 40; expires_after := 50;
       value := PyStr "Y" |} in
  (fun sys => storage_state (world sys) !! "fetch('a')") <$> offered =
    Some (Some delivered)
  /\ (fun sys => futures (world sys) !! 1) <$> offered = Some (Some None)
  /\ (fun sys => futures (world sys) !! 1) <$> final =
       Some (Some (Some (inl delivered)))
  /\ (fun sys => tasks sys !! 3) <$> final =
       Some (Some (Finished (Returned (RValue (PyStr "Y")))))
  /\ (fun sys => storage_state (world sys) !! "fetch('a')") <$> final =
       Some None.
Proof. repeat split; vm_compute; reflexivity. Qed.

(** C10, as stated, fails.  The release looks at the tracker once, on
    entry.  Here it has found the key idle and waits for the storage; a
    refresh then claims the key; the release is carried out all the same,
    and the storage loses the key while the key has a row and a pending
    latch. *)
Lemma release_of_claimed_key :
  let before :=
    run sample_method sample_tight late_release_schedule (initial 0 ∅ []) in
  let after :=
    run sample_method sample_tight (late_release_schedule ++ [StorageDone 1])
      (initial 0 ∅ []) in
  let stored :=
    {| created := 0; update_after := 10; expires_after := 20;
       value := PyStr "X" |} in
  let row sys := updates_in_progress (world sys) !! "fetch('a')" in
  let latch sys := futures (world sys) !! 1 in
  let kept sys := storage_state (world sys) !! "fetch('a')" in
  (row <$> before = Some (Some 1) /\ latch <$> before = Some (Some None)
   /\ kept <$> before = Some (Some stored))
  /\ (row <$> after = Some (Some 1) /\ latch <$> after = Some (Some None)
      /\ kept <$> after = Some None).
Proof. repeat split; vm_compute; reflexivity. Qed.

(** C8, as stated, fails.  With a storage whose [get] raises, the call ends
    with the storage's own exception; nothing was logged and no refresh was
    started. *)
Lemma storage_failure_surfaces :
  let final :=
    run sample_method (sample_configuration unreachable_storage (fifo_eviction 10))
      failed_read_schedule (initial 0 ∅ []) in
  tasks <$> final =
    Some [Finished (Raised (Exc (OtherException "ConnectionError")))]
  /\ (fun sys => trace (world sys)) <$> final = Some [].
Proof. split; vm_compute; reflexivity. Qed.

(** C9, as stated, fails.  A named argument [force_refresh] is not
    reserved: it goes into the key, it does not force a refresh of a fresh
    entry, and on a miss it is passed on to the user callable. *)
Lemma force_refresh_is_an_ordinary_argument :
  let calling :=
    wrapper sample_method sample_ready [PyStr "a"]
      [("force_refresh", PyBool true)] quiet_world in
  let cached :=
    {| created := 0; update_after := 10; expires_after := 20;
       value := PyStr "A" |} in
  let hit := send_entry calling (Some cached) quiet_world in
  let miss := send_entry calling None quiet_world in
  awaiting calling =
    Some (AwStorageGet dict_storage "fetch('a',force_refresh=True)")
  /\ hit = Ret (PyStr "A") (world_of hit)
  /\ trace (world_of hit) = [EvMarkRead "fetch('a',force_refresh=True)"]
  /\ miss =
       Raise (Exc (CachedMethodFailedException "Refresh failed to start"
                     (OtherException "TypeError"))) (world_of miss)
  /\ trace (world_of miss) =
       [EvLog DEBUG "Creating (blocking) entry for key %s";
        EvMethodCalled [PyStr "a"] [("force_refresh", PyBool true)];
        EvLog DEBUG "Early failure instantiating coroutine for %s: %s"].
Proof. repeat split; vm_compute; reflexivity. Qed.

(** ** Where the code breaks its own word *)

(** C1, where the code falls short.  The docstring has an entry invalid once
    its expiration time is reached, and a forced call blocking until the
    cache is refreshed.  Here an entry expired at 20; at 30 a refresh of the
    key is in flight when a forced call of the key arrives.  The forced
    branch comes before the expiry test and hands [refresh] the entry it
    read; [refresh], finding the key being updated and an entry in hand,
    returns that entry at once.  The call ends with the value of the expired
    entry, without waiting and without a call of the user callable of its
    own. *)
Theorem forced_call_returns_expired_entry :
  let final :=
    run sample_method sample_ready forced_expired_schedule (initial 0 ∅ []) in
  let expired :=
    {| created := 0; update_after := 10; expires_after := 20;
       value := PyStr "X" |} in
  (fun sys => clock (world sys)) <$> final = Some 30%Z
  /\ (fun sys => storage_state (world sys) !! "fetch('a')") <$> final =
       Some (Some expired)
  /\ (fun sys => updates_in_progress (world sys) !! "fetch('a')") <$> final =
       Some (Some 1)
  /\ (fun sys => tasks sys !! 2) <$> final =
       Some (Some (Finished (Returned (RValue (PyStr "X")))))
  /\ (fun sys => invocations (trace (world sys))) <$> final = Some 2.
Proof. repeat split; vm_compute; reflexivity. Qed.

(** ** The theorems at work on the sample configuration *)

Lemma refresh_rendezvous_witness :
  updates_in_progress (busy_world "fetch('a')") !! "fetch('a')" = Some 0
  /\ awaiting (refresh None "fetch('a')" sample_provider sample_ready
                 (busy_world "fetch('a')")) = Some (AwLatch 0).
Proof.
  split; [reflexivity|].
  apply (refresh_rendezvous "fetch('a')" sample_provider sample_ready
           (busy_world "fetch('a')") 0).
  reflexivity.
Defined.

Lemma refresh_failed_to_start_witness :
  let provider :=
    value_future_provider broken_method [PyStr "a"] [] sample_ready in
  updates_in_progress quiet_world !! "fetch('a')" = None
  /\ updates_in_progress
       (world_of (refresh None "fetch('a')" provider sample_ready quiet_world))
     = ∅.
Proof.
  split; [reflexivity|].
  apply (refresh_failed_to_start None "fetch('a')"
           (value_future_provider broken_method [PyStr "a"] [] sample_ready)
           sample_ready quiet_world (OtherException "TypeError")
           (record (EvMethodCalled [PyStr "a"] []) quiet_world));
    reflexivity.
Defined.

Lemma try_release_guarded_witness :
  try_release "fetch('a')" sample_ready (busy_world "fetch('a')") =
  Ret false (busy_world "fetch('a')").
Proof.
  apply (proj1 (try_release_guarded "fetch('a')" sample_ready
                  (busy_world "fetch('a')")) 0).
  reflexivity.
Defined.

Lemma refresh_failure_aborts_witness :
  claimed "fetch('a')" 0 (world_of sample_working)
  /\ throw sample_working (Exc TimeoutError) (world_of sample_working) =
     Raise (Exc (CachedMethodFailedException "Refresh timed out" TimeoutError))
       (aborted "fetch('a')" 0 TimeoutError
          (record (EvLog DEBUG "Timeout for %s: %s") (world_of sample_working))).
Proof.
  assert (Hc : claimed "fetch('a')" 0 (world_of sample_working))
    by (split; reflexivity).
  split; [exact Hc|].
  apply (refresh_failure_aborts None "fetch('a')" sample_provider sample_ready
           quiet_world (world_of (sample_provider quiet_world)) sample_future);
    [reflexivity | reflexivity | reflexivity | exact Hc].
Defined.

Lemma refresh_success_order_witness :
  claimed "fetch('a')" 0 (world_of sample_working)
  /\ awaiting (send_value sample_working (PyStr "A") (world_of sample_working)) =
     Some (AwStorageOffer dict_storage "fetch('a')"
             {| created := 0; update_after := 10; expires_after := 20;
                value := PyStr "A" |}).
Proof.
  assert (Hc : claimed "fetch('a')" 0 (world_of sample_working))
    by (split; reflexivity).
  split; [exact Hc|].
  refine (proj1 (proj1
    (refresh_success_order None "fetch('a')" sample_provider sample_ready
       quiet_world (world_of (sample_provider quiet_world)) sample_future
       _ _ _ (PyStr "A") (world_of sample_working) (world_of sample_working)
       Hc Hc)));
    reflexivity.
Defined.

Lemma refresh_exit_settles_witness :
  updates_in_progress quiet_world !! "fetch('a')" = None
  /\ exits (fun w' => 0 < length (futures w')) (settled "fetch('a')" 0)
       sample_working.
Proof.
  split; [reflexivity|].
  apply (refresh_exit_settles None "fetch('a')" sample_provider sample_ready
           quiet_world (world_of (sample_provider quiet_world)) sample_future);
    reflexivity.
Defined.

Lemma wrapper_dispatch_witness :
  configured sample_ready = true
  /\ awaiting (wrapper sample_method sample_ready [PyStr "a"] [] quiet_world) =
     Some (AwStorageGet dict_storage "fetch('a')").
Proof.
  split; [reflexivity|].
  apply (wrapper_dispatch sample_method sample_ready [PyStr "a"] [] quiet_world).
  reflexivity.
Defined.

Lemma wrapper_get_failure_propagates_witness :
  configured sample_ready = true
  /\ forall e w',
       throw (wrapper sample_method sample_ready [PyStr "a"] [] quiet_world) e w'
       = Raise e w'.
Proof.
  split; [reflexivity|].
  apply (wrapper_get_failure_propagates sample_method sample_ready
           [PyStr "a"] [] quiet_world).
  reflexivity.
Defined.

Lemma wrapper_strips_flag_witness :
  let kwargs := [("force_refresh_memoized", PyBool true)] in
  NoDup kwargs.*1
  /\ awaiting (wrapper sample_method sample_ready [PyStr "a"] kwargs quiet_world)
     = Some (AwStorageGet dict_storage "fetch('a')").
Proof.
  assert (Hnd : NoDup [("force_refresh_memoized", PyBool true)].*1)
    by compute_done.
  split; [exact Hnd|].
  apply (wrapper_strips_flag sample_method sample_ready [PyStr "a"]
           [("force_refresh_memoized", PyBool true)] quiet_world);
    [reflexivity | exact Hnd].
Defined.

Lemma single_flight_witness :
  run sample_method sample_ready stale_read_schedule (initial 0 ∅ []) <> None
  /\ forall sys,
       run sample_method sample_ready stale_read_schedule (initial 0 ∅ []) =
         Some sys ->
       flight sample_method sample_ready "fetch('a')" (trace (world sys)) = Idle.
Proof.
  split; [vm_compute; discriminate|].
  intros sys Hrun.
  rewrite (proj1 (single_flight sample_method sample_ready stale_read_schedule
                    0 ∅ [] sys Hrun) "fetch('a')").
  vm_compute in Hrun. injection Hrun as <-. reflexivity.
Defined.

Lemma unready_configuration_refuses_witness :
  let schedule := [Call [PyStr "a"] []; Run 0; Tick 5; Call [PyStr "b"] []] in
  let final := run sample_method sample_unready schedule (initial 0 ∅ []) in
  configured sample_unready = false
  /\ final <> None
  /\ forall sys, final = Some sys ->
       Forall refused (tasks sys) /\ trace (world sys) = [].
Proof.
  split; [reflexivity|]. split; [vm_compute; discriminate|].
  intros sys Hrun.
  pose proof (unready_configuration_refuses sample_method sample_unready
                eq_refl _ 0 ∅ [] sys Hrun) as H.
  exact (conj (proj1 H) (proj1 (proj2 H))).
Defined.

Lemma wrapper_read_notification_failure_witness :
  let cfg := sample_configuration dict_storage forgetful_eviction in
  let calling := wrapper sample_method cfg [PyStr "a"] [] quiet_world in
  mark_read forgetful_eviction "fetch('a')" [] =
    (Raised (Exc (OtherException "EvictionError")), [])
  /\ send_entry calling (Some sample_entry) quiet_world =
     Raise (Exc (OtherException "EvictionError"))
       (with_eviction_state []
          (record (EvMarkRead "fetch('a')") quiet_world)).
Proof.
  split; [reflexivity|].
  apply (wrapper_read_notification_failure sample_method
           (sample_configuration dict_storage forgetful_eviction)
           [PyStr "a"] [] quiet_world sample_entry quiet_world);
    reflexivity.
Defined.

Lemma refresh_offer_timeout_witness :
  let offering :=
    send_value sample_working (PyStr "A") (world_of sample_working) in
  claimed "fetch('a')" 0 (world_of sample_working)
  /\ throw offering (Exc TimeoutError) (world_of sample_working) =
     throw sample_working (Exc TimeoutError) (world_of sample_working).
Proof.
  assert (Hc : claimed "fetch('a')" 0 (world_of sample_working))
    by (split; reflexivity).
  split; [exact Hc|].
  refine (proj2
    (refresh_offer_timeout None "fetch('a')" sample_provider sample_ready
       quiet_world (world_of (sample_provider quiet_world)) sample_future
       _ _ _ (PyStr "A") (world_of sample_working) (world_of sample_working)
       Hc));
    reflexivity.
Defined.

Lemma try_release_cancelled_witness :
  updates_in_progress quiet_world !! "fetch('a')" = None
  /\ throw (try_release "fetch('a')" sample_ready quiet_world) CancelledError
       quiet_world = Raise CancelledError quiet_world.
Proof.
  split; [reflexivity|].
  apply (proj1 (try_release_cancelled "fetch('a')" sample_ready quiet_world
                  eq_refl)).
Defined.

Lemma forced_call_during_refresh_witness :
  let kwargs := [("force_refresh_memoized", PyBool true)] in
  let calling := wrapper sample_method sample_ready [PyStr "a"] kwargs quiet_world in
  let returning :=
    send_entry calling (Some sample_entry) (busy_world "fetch('a')") in
  updates_in_progress (busy_world "fetch('a')") !! "fetch('a')" = Some 0
  /\ returning = Ret (PyStr "A") (world_of returning).
Proof.
  split; [reflexivity|].
  rewrite (forced_call_during_refresh sample_method sample_ready [PyStr "a"]
             [("force_refresh_memoized", PyBool true)] quiet_world
             sample_entry (busy_world "fetch('a')") [] 0);
    reflexivity.
Defined.

Lemma waiting_call_during_refresh_witness :
  let calling := wrapper sample_method sample_ready [PyStr "a"] [] quiet_world in
  updates_in_progress (busy_world "fetch('a')") !! "fetch('a')" = Some 0
  /\ awaiting (send_entry calling None (busy_world "fetch('a')")) =
     Some (AwLatch 0).
Proof.
  split; [reflexivity|].
  apply (waiting_call_during_refresh sample_method sample_ready [PyStr "a"] []
           quiet_world None (busy_world "fetch('a')") 0);
    [reflexivity | reflexivity | left; reflexivity].
Defined.

Lemma wrapper_cold_miss_witness :
  let calling := wrapper sample_method sample_ready [PyStr "a"] [] quiet_world in
  let working := send_entry calling None quiet_world in
  let offering := send_value working (PyStr "A") (world_of working) in
  claimed "fetch('a')" 0 (world_of working)
  /\ awaiting working = Some (AwValueFuture sample_future)
  /\ awaiting offering =
       Some (AwStorageOffer dict_storage "fetch('a')" sample_entry).
Proof.
  set (working :=
         send_entry
           (wrapper sample_method sample_ready [PyStr "a"] [] quiet_world)
           None quiet_world).
  assert (Hc : claimed "fetch('a')" 0 (world_of working))
    by (split; reflexivity).
  split; [exact Hc|].
  refine (let H := wrapper_cold_miss sample_method sample_ready [PyStr "a"] []
                     quiet_world quiet_world (PyStr "A") (world_of working)
                     (world_of working) eq_refl eq_refl eq_refl Hc Hc in
          conj (proj1 H) (proj1 (proj2 H))).
Defined.

Lemma wrapper_refresh_failure_no_fallback_witness :
  let kwargs := [("force_refresh_memoized", PyBool true)] in
  let calling := wrapper sample_method sample_ready [PyStr "a"] kwargs quiet_world in
  let working := send_entry calling (Some sample_entry) quiet_world in
  let failing :=
    throw working (Exc (OtherException "Boom")) (world_of working) in
  claimed "fetch('a')" 0 (world_of working)
  /\ failing =
     Raise (Exc (CachedMethodFailedException "Refresh failed to complete"
                   (OtherException "Boom"))) (world_of failing).
Proof.
  set (working :=
         send_entry
           (wrapper sample_method sample_ready [PyStr "a"]
              [("force_refresh_memoized", PyBool true)] quiet_world)
           (Some sample_entry) quiet_world).
  assert (Hc : claimed "fetch('a')" 0 (world_of working))
    by (split; reflexivity).
  split; [exact Hc|].
  refine (proj1 (proj2
    (wrapper_refresh_failure_no_fallback sample_method sample_ready
       [PyStr "a"] [("force_refresh_memoized", PyBool true)] quiet_world
       sample_entry quiet_world [] (OtherException "Boom") (world_of working)
       eq_refl eq_refl eq_refl (or_introl eq_refl) eq_refl Hc))).
Defined.

Lemma unset_flag_is_no_flag_witness :
  let before := [("page", PyInt 2)] in
  ("force_refresh_memoized" ∉ before.*1)
  /\ wrapper sample_method sample_ready [PyStr "a"]
       (before ++ [("force_refresh_memoized", PyBool false)]) quiet_world =
     wrapper sample_method sample_ready [PyStr "a"] before quiet_world.
Proof.
  assert (Hb : "force_refresh_memoized" ∉ [("page", PyInt 2)].*1)
    by compute_done.
  split; [exact Hb|].
  apply (unset_flag_is_no_flag sample_method sample_ready [PyStr "a"]
           [("page", PyInt 2)] [] (PyBool false) quiet_world Hb);
    [compute_done | reflexivity].
Defined.

Lemma queued_refreshes_hold_entries_witness :
  let final :=
    run sample_method sample_ready soft_stale_schedule (initial 0 ∅ []) in
  let cached :=
    {| created := 0; update_after := 10; expires_after := 20;
       value := PyStr "X" |} in
  let queued :=
    SpawnRefresh (Some cached) "fetch('a')" [PyStr "a"] [] sample_ready in
  (fun sys => ready (world sys)) <$> final = Some [queued]
  /\ forall sys, final = Some sys ->
       "fetch('a')" =
       format_key (key_extractor sample_ready) sample_method [PyStr "a"] [].
Proof.
  split; [vm_compute; reflexivity|].
  intros sys Hrun.
  refine (proj2
    (queued_refreshes_hold_entries sample_method sample_ready
       soft_stale_schedule 0 ∅ [] sys Hrun
       (Some {| created := 0; update_after := 10; expires_after := 20;
                value := PyStr "X" |})
       "fetch('a')" [PyStr "a"] [] sample_ready _)).
  vm_compute in Hrun. injection Hrun as <-.
  apply elem_of_cons. left. reflexivity.
Defined.

Lemma memoize_binds_once_witness :
  let first :=
    memoize sample_ready (Some sample_method) (Some sample_ready) (Some 0) ∅ in
  let second :=
    memoize sample_ready (Some broken_method) (Some sample_unready) (Some 0)
      first.2 in
  (∅ : gmap nat (@Binding (gmap string CacheEntry))) !! 0 = None
  /\ second.2 !! 0 =
     Some {| bound_storage := dict_storage;
             bound_key_extractor := sample_key_extractor;
             bound_method := sample_method |}.
Proof.
  split; [reflexivity|].
  pose proof (memoize_binds_once sample_ready sample_method sample_ready
                broken_method (Some sample_unready) 0 ∅ eq_refl) as H.
  cbv zeta in H. destruct H as (Hfirst & _ & Hsecond & _).
  rewrite Hsecond. exact Hfirst.
Defined.
